(** * ndsemu: register binding (hwio), divisor unit, ARM core exceptions
      and lines, touchscreen sample.

    A shallow embedding of [emu/hwio] (tag parsing and [InitRegs]),
    [divisor.go] ([HwDivisor]), [emu/arm] ([Exception], [SetLine]) and the
    touchscreen controller's sample computation, with the properties the
    specification states about them. *)

From Stdlib Require Import ZArith Lia Bool String Ascii List Sorted.
From stdpp Require Import base option list vector gmap.

Local Open Scope Z_scope.

(** ** Go's fixed-width integers

    Values of Go's sized integer types are kept as [Z]; a conversion
    [uintN(x)] / [intN(x)] keeps the low N bits and reads them unsigned or
    in two's complement. *)
Module GoInt.

Definition wrapU (w x : Z) : Z := x mod 2 ^ w.

Definition wrapS (w x : Z) : Z := (x + 2 ^ (w - 1)) mod 2 ^ w - 2 ^ (w - 1).

Definition uint8 : Z -> Z := wrapU 8.
Definition uint16 : Z -> Z := wrapU 16.
Definition uint32 : Z -> Z := wrapU 32.
Definition uint64 : Z -> Z := wrapU 64.
Definition int32 : Z -> Z := wrapS 32.
Definition int64 : Z -> Z := wrapS 64.

(** Go's [/] and [%] on signed integers truncate toward zero ([Z.quot],
    [Z.rem]); the result is brought back to the operand type. *)
Definition div32 (a b : Z) : Z := int32 (Z.quot a b).
Definition rem32 (a b : Z) : Z := int32 (Z.rem a b).
Definition div64 (a b : Z) : Z := int64 (Z.quot a b).
Definition rem64 (a b : Z) : Z := int64 (Z.rem a b).

Lemma wrapU_range w x : 0 <= w -> 0 <= wrapU w x < 2 ^ w.
Proof. intros Hw. unfold wrapU. apply Z.mod_pos_bound. apply Z.pow_pos_nonneg; lia. Qed.

Lemma wrapU_id w x : 0 <= x < 2 ^ w -> wrapU w x = x.
Proof. intros H. unfold wrapU. apply Z.mod_small. exact H. Qed.

Lemma wrapS_range w x : 0 < w -> - 2 ^ (w - 1) <= wrapS w x < 2 ^ (w - 1).
Proof.
  intros Hw. unfold wrapS.
  assert (E : 2 ^ w = 2 * 2 ^ (w - 1)).
  { replace w with (Z.succ (w - 1)) at 1 by lia. apply Z.pow_succ_r. lia. }
  assert (P : 0 < 2 ^ (w - 1)) by (apply Z.pow_pos_nonneg; lia).
  pose proof (Z.mod_pos_bound (x + 2 ^ (w - 1)) (2 ^ w) ltac:(lia)). lia.
Qed.

Lemma wrapS_id w x : 0 < w -> - 2 ^ (w - 1) <= x < 2 ^ (w - 1) -> wrapS w x = x.
Proof.
  intros Hw H. unfold wrapS.
  assert (E : 2 ^ w = 2 * 2 ^ (w - 1)).
  { replace w with (Z.succ (w - 1)) at 1 by lia. apply Z.pow_succ_r. lia. }
  rewrite Z.mod_small by lia. lia.
Qed.

(** A signed reading is zero exactly when the low bits are zero. *)
Lemma wrapS_zero_iff w x : 0 < w -> (wrapS w x = 0 <-> wrapU w x = 0).
Proof.
  intros Hw. unfold wrapS, wrapU.
  assert (E : 2 ^ w = 2 * 2 ^ (w - 1)).
  { replace w with (Z.succ (w - 1)) at 1 by lia. apply Z.pow_succ_r. lia. }
  assert (P : 0 < 2 ^ (w - 1)) by (apply Z.pow_pos_nonneg; lia).
  set (h := 2 ^ (w - 1)) in *. set (M := 2 ^ w) in *.
  split; intros H.
  - assert (Hh : (x + h) mod M = h) by lia.
    assert (Hx : x mod M = ((x + h) mod M - h mod M) mod M).
    { rewrite <- Zminus_mod. f_equal. lia. }
    rewrite Hx, Hh. rewrite (Z.mod_small h M) by lia.
    rewrite Z.sub_diag. apply Z.mod_0_l. lia.
  - rewrite Zplus_mod, H, Z.add_0_l, Z.mod_mod by lia.
    rewrite Z.mod_small by lia. lia.
Qed.

(** Truncating division of in-range operands stays in range, except for
    the one overflowing pair (minimum, -1). *)
Lemma quot_in_range m a b :
  0 < m -> - m <= a < m -> - m <= b < m -> b <> 0 -> ~ (a = - m /\ b = -1) ->
  - m <= Z.quot a b < m.
Proof.
  intros Hm Ha Hb Hb0 Hov.
  pose proof (Z.quot_rem' a b) as E.
  pose proof (Z.rem_bound_abs a b Hb0) as R.
  destruct (Z.eq_dec b (-1)) as [->|Hb1].
  - change (-1) with (Z.opp 1). rewrite Z.quot_opp_r, Z.quot_1_r by lia.
    change (Z.opp 1) with (-1) in Hov. lia.
  - destruct (Z.eq_dec b 1) as [->|Hb2].
    + rewrite Z.quot_1_r. lia.
    + assert (B : Z.abs (Z.quot a b) * 2 <= Z.abs a).
      { rewrite <- Z.quot_abs by lia.
        pose proof (Z.mul_quot_le (Z.abs a) (Z.abs b) ltac:(lia) ltac:(lia)).
        assert (0 <= Z.quot (Z.abs a) (Z.abs b)) by (apply Z.quot_pos; lia). nia. }
      lia.
Qed.

Lemma rem_in_range m a b :
  0 < m -> - m <= b < m -> b <> 0 -> - m <= Z.rem a b < m.
Proof.
  intros Hm Hb Hb0. pose proof (Z.rem_bound_abs a b Hb0). lia.
Qed.

End GoInt.

(** ** A reference instance of the library parameters

    Enough of [strconv.ParseUint] with base 0 (decimal, [0x] hexadecimal and
    [0] octal literals, checked against the bit size) and of
    [strings.ToUpper] (ASCII letters) to run [InitRegs] on the tags that
    occur in the sources. *)
Module GoLib.

Definition digitVal (a : ascii) : option Z :=
  let n := Z.of_nat (nat_of_ascii a) in
  if (48 <=? n) && (n <=? 57) then Some (n - 48)
  else if (97 <=? n) && (n <=? 102) then Some (n - 87)
  else if (65 <=? n) && (n <=? 70) then Some (n - 55)
  else None.

Fixpoint parseDigits (base acc : Z) (s : string) : option Z :=
  match s with
  | EmptyString => Some acc
  | String a s' =>
      match digitVal a with
      | Some d => if d <? base then parseDigits base (acc * base + d) s' else None
      | None => None
      end
  end.

Definition ParseUint (s : string) (base bitSize : Z) : option Z :=
  let parsed :=
    match s with
    | EmptyString => None
    | String "0" (String "x" (String a r)) => parseDigits 16 0 (String a r)
    | String "0" (String a r) => parseDigits 8 0 (String a r)
    | _ => parseDigits (if base =? 0 then 10 else base) 0 s
    end in
  match parsed with
  | Some v => if v <? 2 ^ bitSize then Some v else None
  | None => None
  end.

Definition upperByte (a : ascii) : ascii :=
  let n := nat_of_ascii a in
  if (97 <=? n)%nat && (n <=? 122)%nat then ascii_of_nat (n - 32) else a.

Fixpoint ToUpper (s : string) : string :=
  match s with
  | EmptyString => EmptyString
  | String a s' => String (upperByte a) (ToUpper s')
  end.

End GoLib.

(** ** Register binding framework ([emu/hwio]) *)
Module Hwio.
Import GoInt.

(** Modelled from the spec: the register types [Reg16], [Reg32], [Reg64] are
    declared outside the given sources. Each has a live [Value] and a
    read-only mask [RoMask] of the register's width, and optional bound
    callbacks [ReadCb] / [WriteCb]; a bound method is kept by its name. *)
Record Reg : Type := mkReg {
  Value : Z;
  RoMask : Z;
  ReadCb : option string;
  WriteCb : option string;
}.

Definition set_Value (v : Z) (r : Reg) : Reg :=
  {| Value := v; RoMask := RoMask r; ReadCb := ReadCb r; WriteCb := WriteCb r |}.
Definition set_RoMask (v : Z) (r : Reg) : Reg :=
  {| Value := Value r; RoMask := v; ReadCb := ReadCb r; WriteCb := WriteCb r |}.
Definition set_ReadCb (m : string) (r : Reg) : Reg :=
  {| Value := Value r; RoMask := RoMask r; ReadCb := Some m; WriteCb := WriteCb r |}.
Definition set_WriteCb (m : string) (r : Reg) : Reg :=
  {| Value := Value r; RoMask := RoMask r; ReadCb := ReadCb r; WriteCb := Some m |}.

(** *** Go string primitives used by [Get] *)

(** [strings.Index(s, sep)] for a one-byte separator: the index of its first
    occurrence, or -1. *)
Fixpoint Index (s : string) (sep : ascii) : Z :=
  match s with
  | EmptyString => -1
  | String a s' =>
      if Ascii.eqb a sep then 0
      else let i := Index s' sep in if i <? 0 then -1 else i + 1
  end.

Fixpoint takeS (n : nat) (s : string) : string :=
  match n, s with
  | S n', String a s' => String a (takeS n' s')
  | _, _ => EmptyString
  end.

Fixpoint dropS (n : nat) (s : string) : string :=
  match n, s with
  | S n', String _ s' => dropS n' s'
  | _, _ => s
  end.

(** [s[:i]] and [s[i:]] *)
Definition slice_to (s : string) (i : Z) : string := takeS (Z.to_nat i) s.
Definition slice_from (s : string) (i : Z) : string := dropS (Z.to_nat i) s.

Definition len (s : string) : Z := Z.of_nat (String.length s).

(** [s[i] == c] *)
Definition byte_at_is (s : string) (i : Z) (c : ascii) : bool :=
  match String.get (Z.to_nat i) s with
  | Some a => Ascii.eqb a c
  | None => false
  end.

(** *** [hwiotag.Get] *)

(** The loop [for tag != "" { ... tag = next }]; [fuel] bounds the number of
    iterations, and every iteration but the last drops at least the comma
    it found. *)
Fixpoint Get_loop (fuel : nat) (tag opt : string) : string :=
  match fuel with
  | O => ""%string
  | S fuel' =>
      if String.eqb tag "" then ""%string
      else
        let i := Index tag "," in
        let tok := if 0 <=? i then slice_to tag i else tag in
        let next := if 0 <=? i then slice_from tag (i + 1) else ""%string in
        if String.eqb tok opt then "true"%string
        else if (len opt <? len tok)
                && String.eqb (slice_to tok (len opt)) opt
                && byte_at_is tok (len opt) "="
        then
          let val := slice_from tok (len opt + 1) in
          let j := Index val "," in
          if 0 <=? j then slice_from val j else val
        else Get_loop fuel' next opt
  end.

Definition Get (t opt : string) : string :=
  Get_loop (S (String.length t)) t opt.

(** *** [InitRegs] *)

(** A struct field seen through reflection: its declared name, the value of
    its [hwio] tag ([parseTag]; empty when the field has none) and its
    value, whose dynamic type decides the type switch. *)
Inductive FieldValue : Type :=
  | VReg16 (r : Reg)
  | VReg32 (r : Reg)
  | VReg64 (r : Reg)
  | VOther (ty : string).

Record StructField : Type := mkField {
  Name : string;
  Tag : string;
  Val : FieldValue;
}.

(** The peripheral instance: its fields in declaration order and the names
    of the methods of its pointer type ([MethodByName] is valid exactly on
    those). *)
Record Struct : Type := mkStruct {
  Fields : list StructField;
  Methods : list string;
}.

Inductive InitError : Type :=
  | UnsupportedRegtype (ty : string)
  | InvalidRwmask (s : string)
  | InvalidReset (s : string)
  | CannotFindMethod (name : string).

(** The type switch: the register and its width, or the unsupported type. *)
Definition regBits (v : FieldValue) : option Z :=
  match v with
  | VReg16 _ => Some 16
  | VReg32 _ => Some 32
  | VReg64 _ => Some 64
  | VOther _ => None
  end.

Definition fieldReg (f : StructField) : option Reg :=
  match Val f with
  | VReg16 r | VReg32 r | VReg64 r => Some r
  | VOther _ => None
  end.

Definition withReg (f : StructField) (r : Reg) : StructField :=
  {| Name := Name f; Tag := Tag f;
     Val := match Val f with
            | VReg16 _ => VReg16 r
            | VReg32 _ => VReg32 r
            | VReg64 _ => VReg64 r
            | VOther ty => VOther ty
            end |}.

(** [reflect.Value.SetUint] on an unsigned field of [nbits] bits keeps the
    low [nbits] bits of its 64-bit argument. *)
Definition SetUint (nbits x : Z) : Z := wrapU nbits x.

(** One step of a field's initialisation: the register as the step leaves
    it, and the error it returned, if any. The register is updated in place,
    so what was written before an error stays written. *)
Definition RegStep : Type := Reg -> Reg * option InitError.

Definition andThen (a b : RegStep) : RegStep :=
  fun r => match a r with
           | (r', None) => b r'
           | (r', Some e) => (r', Some e)
           end.

Definition MethodByName_IsValid (methods : list string) (name : string) : bool :=
  existsb (String.eqb name) methods.

Section InitRegs.
(** [strconv.ParseUint(s, base, bitSize)] and [strings.ToUpper] belong to
    Go's library: they are parameters of the embedding. [None] stands for
    a returned error. *)
Variable ParseUint : string -> Z -> Z -> option Z.
Variable ToUpper : string -> string.

Definition stepRwmask (nbits : Z) (tag : string) : RegStep := fun r =>
  let rwmask := Get tag "rwmask" in
  if String.eqb rwmask "" then (r, None)
  else match ParseUint rwmask 0 nbits with
       | None => (r, Some (InvalidRwmask rwmask))
       | Some mask => (set_RoMask (SetUint nbits (uint64 (Z.lnot (uint64 mask)))) r, None)
       end.

Definition stepReset (nbits : Z) (tag : string) : RegStep := fun r =>
  let reset := Get tag "reset" in
  if String.eqb reset "" then (r, None)
  else match ParseUint reset 0 nbits with
       | None => (r, Some (InvalidReset reset))
       | Some rst => (set_Value (SetUint nbits (uint64 rst)) r, None)
       end.

Definition stepRcb (methods : list string) (name tag : string) : RegStep := fun r =>
  let rcb := Get tag "rcb" in
  if String.eqb rcb "" then (r, None)
  else
    let rcb := if String.eqb rcb "true" then ("Read" ++ ToUpper name)%string else rcb in
    if MethodByName_IsValid methods rcb then (set_ReadCb rcb r, None)
    else (r, Some (CannotFindMethod rcb)).

Definition stepWcb (methods : list string) (name tag : string) : RegStep := fun r =>
  let wcb := Get tag "wcb" in
  if String.eqb wcb "" then (r, None)
  else
    let wcb := if String.eqb wcb "true" then ("Write" ++ ToUpper name)%string else wcb in
    if MethodByName_IsValid methods wcb then (set_WriteCb wcb r, None)
    else (r, Some (CannotFindMethod wcb)).

(** The body of the loop over the fields, for one field. *)
Definition initField (methods : list string) (f : StructField) : StructField * option InitError :=
  if String.eqb (Tag f) "" then (f, None)
  else
    match regBits (Val f), fieldReg f with
    | Some nbits, Some r =>
        let '(r', e) :=
          andThen (stepRwmask nbits (Tag f))
            (andThen (stepReset nbits (Tag f))
               (andThen (stepRcb methods (Name f) (Tag f))
                  (stepWcb methods (Name f) (Tag f)))) r in
        (withReg f r', e)
    | _, _ =>
        (f, Some (UnsupportedRegtype
                    match Val f with VOther ty => ty | _ => ""%string end))
    end.

(** The loop: the first error returns at once, later fields untouched. *)
Fixpoint initFields (methods : list string) (fs : list StructField)
  : list StructField * option InitError :=
  match fs with
  | [] => ([], None)
  | f :: rest =>
      match initField methods f with
      | (f', Some e) => (f' :: rest, Some e)
      | (f', None) =>
          let '(rest', e) := initFields methods rest in (f' :: rest', e)
      end
  end.

Definition InitRegs (data : Struct) : Struct * option InitError :=
  let '(fs, e) := initFields (Methods data) (Fields data) in
  ({| Fields := fs; Methods := Methods data |}, e).

End InitRegs.

(** *** Properties of [Get] *)

Lemma dropS_length n s : String.length (dropS n s) = (String.length s - n)%nat.
Proof.
  revert s. induction n as [|n IH]; intros [|a s]; simpl; try lia. apply IH.
Qed.

Lemma eqb_empty_length s : String.eqb s "" = false -> (0 < String.length s)%nat.
Proof. destruct s; simpl; [discriminate | lia]. Qed.

(** The fuel [Get] gives its loop is enough: more fuel changes nothing, so
    the loop always stops because the tag ran out. *)
Lemma Get_loop_enough fuel tag opt :
  (String.length tag < fuel)%nat -> Get_loop fuel tag opt = Get tag opt.
Proof.
  unfold Get.
  assert (G : forall f1 f2 t, (String.length t < f1)%nat -> (String.length t < f2)%nat ->
                              Get_loop f1 t opt = Get_loop f2 t opt).
  { induction f1 as [|f1 IH]; intros f2 t H1 H2; [lia|].
    destruct f2 as [|f2]; [lia|]. simpl.
    destruct (String.eqb t "") eqn:Et; [reflexivity|].
    apply eqb_empty_length in Et.
    destruct (String.eqb _ opt); [reflexivity|].
    destruct (_ && _ && _); [reflexivity|].
    destruct (0 <=? Index t ",") eqn:Ei.
    - apply IH; unfold slice_from; rewrite dropS_length;
        apply Z.leb_le in Ei; lia.
    - destruct f1, f2; reflexivity. }
  intros H. apply G; lia.
Qed.

(** *** Properties of [InitRegs] *)





Lemma fieldReg_withReg f r0 r : fieldReg f = Some r0 -> fieldReg (withReg f r) = Some r.
Proof. unfold fieldReg, withReg. simpl. destruct (Val f); intros H; inversion H; reflexivity. Qed.




Section InitRegsFacts.
Variable ParseUint : string -> Z -> Z -> option Z.
Variable ToUpper : string -> string.

Lemma initFields_length methods fs :
  length (initFields ParseUint ToUpper methods fs).1 = length fs.
Proof.
  induction fs as [|f fs IH]; simpl; [reflexivity|].
  destruct (initField _ _ methods f) as [f' [e|]]; simpl; [reflexivity|].
  destruct (initFields _ _ methods fs) as [fs' e']. simpl in *. congruence.
Qed.







(** [initField] on a tagged register field, as the chain of its steps. *)
Lemma initField_tagged methods f nbits r :
  Tag f <> ""%string -> regBits (Val f) = Some nbits -> fieldReg f = Some r ->
  initField ParseUint ToUpper methods f =
    let res := andThen (stepRwmask ParseUint nbits (Tag f))
                 (andThen (stepReset ParseUint nbits (Tag f))
                    (andThen (stepRcb ToUpper methods (Name f) (Tag f))
                       (stepWcb ToUpper methods (Name f) (Tag f)))) r in
    (withReg f res.1, res.2).
Proof.
  intros Ht Hb Hr. unfold initField.
  apply String.eqb_neq in Ht. rewrite Ht, Hb, Hr.
  destruct (andThen _ _ r); reflexivity.
Qed.


End InitRegsFacts.



End Hwio.

(** ** Divisor unit ([divisor.go]) *)
Module Divisor.
Import GoInt Hwio.

(** [HwDivisor]: [DivCnt] is a [Reg16], the others are [Reg64]. *)
Record HwDivisor : Type := mkDiv {
  DivCnt : Reg;
  Numer : Reg;
  Denom : Reg;
  Res : Reg;
  Mod : Reg;
}.

(** [div.Res.Value = v] and [div.Mod.Value = v] *)
Definition setRes (v : Z) (div : HwDivisor) : HwDivisor :=
  {| DivCnt := DivCnt div; Numer := Numer div; Denom := Denom div;
     Res := set_Value v (Res div); Mod := Mod div |}.
Definition setMod (v : Z) (div : HwDivisor) : HwDivisor :=
  {| DivCnt := DivCnt div; Numer := Numer div; Denom := Denom div;
     Res := Res div; Mod := set_Value v (Mod div) |}.

Definition ReadDIVCNT (div : HwDivisor) (val : Z) : Z :=
  if Value (Denom div) =? 0 then Z.lor val (Z.shiftl 1 14) else val.

Definition calc (div : HwDivisor) : HwDivisor :=
  let mode := Z.land (Value (DivCnt div)) 3 in
  if mode =? 0 then
    (* 32-bit divisions *)
    if int32 (Value (Denom div)) =? 0 then
      let div := setMod (Value (Numer div)) div in
      if int32 (Value (Numer div)) >=? 0
      then setRes (uint64 0xFFFFFFFFF) div
      else setRes (uint64 (Z.lnot (uint64 0xFFFFFFFFF))) div
    else if (int32 (Value (Denom div)) =? -1)
            && (uint32 (Value (Numer div)) =? 0x80000000) then
      let div := setMod 0 div in
      setRes (uint64 (uint32 (Value (Numer div)))) div
    else
      let res := div32 (int32 (Value (Numer div))) (int32 (Value (Denom div))) in
      let mod' := rem32 (int32 (Value (Numer div))) (int32 (Value (Denom div))) in
      let div := setRes (uint64 (int64 res)) div in
      setMod (uint64 (int64 mod')) div
  else
    let denom := int64 (Value (Denom div)) in
    let denom := if negb (mode =? 2)
                 then int64 (int32 (Value (Denom div)))
                 else denom in
    if int32 denom =? 0 then
      let div := setMod (Value (Numer div)) div in
      if Value (Numer div) >? 0
      then setRes (uint64 0xFFFFFFFFFFFFFFFF) div
      else setRes 1 div
    else if (int32 denom =? -1)
            && (uint64 (Value (Numer div)) =? 0x8000000000000000) then
      let div := setMod 0 div in
      setRes (Value (Numer div)) div
    else
      let div := setRes (uint64 (div64 (int64 (Value (Numer div))) denom)) div in
      setMod (uint64 (rem64 (int64 (Value (Numer div))) denom)) div.

(** The write callbacks ignore the old and the new value. *)
Definition WriteIN (div : HwDivisor) (_ _ : Z) : HwDivisor := calc div.
Definition WriteDIVCNT (div : HwDivisor) (_ _ : Z) : HwDivisor := calc div.

(** The struct as [InitRegs] sees it through reflection, with the tags and
    the exported methods of [divisor.go]. *)
Definition fieldsOf (div : HwDivisor) : list StructField :=
  [ mkField "DivCnt" "offset=0x00,rwmask=0x3,wcb,rcb" (VReg16 (DivCnt div));
    mkField "Numer" "offset=0x10,wcb=WriteIN" (VReg64 (Numer div));
    mkField "Denom" "offset=0x18,wcb=WriteIN" (VReg64 (Denom div));
    mkField "Res" "offset=0x20" (VReg64 (Res div));
    mkField "Mod" "offset=0x28" (VReg64 (Mod div)) ].

Definition methodsOf : list string :=
  [ "WriteIN"%string; "WriteDIVCNT"%string; "ReadDIVCNT"%string ].

Definition zeroReg : Reg := mkReg 0 0 None None.

(** [new(HwDivisor)] *)
Definition newDiv : HwDivisor := mkDiv zeroReg zeroReg zeroReg zeroReg zeroReg.

(** A divisor with the given control, numerator and denominator values. *)
Definition divOf (cnt numer denom : Z) : HwDivisor :=
  mkDiv (set_Value cnt zeroReg) (set_Value numer zeroReg) (set_Value denom zeroReg)
        zeroReg zeroReg.

(** *** What [calc] leaves alone *)

Ltac split_ifs :=
  repeat match goal with
         | |- context [if ?b then _ else _] => destruct b
         end.

Lemma calc_frame div :
  DivCnt (calc div) = DivCnt div /\ Numer (calc div) = Numer div /\
  Denom (calc div) = Denom div /\
  RoMask (Res (calc div)) = RoMask (Res div) /\
  ReadCb (Res (calc div)) = ReadCb (Res div) /\
  WriteCb (Res (calc div)) = WriteCb (Res div) /\
  RoMask (Mod (calc div)) = RoMask (Mod div) /\
  ReadCb (Mod (calc div)) = ReadCb (Mod div) /\
  WriteCb (Mod (calc div)) = WriteCb (Mod div).
Proof. unfold calc. split_ifs; simpl; repeat split; reflexivity. Qed.

(** The values [calc] writes are a function of the three inputs only. *)
Lemma calc_inputs_only d1 d2 :
  Value (DivCnt d1) = Value (DivCnt d2) ->
  Value (Numer d1) = Value (Numer d2) ->
  Value (Denom d1) = Value (Denom d2) ->
  Value (Res (calc d1)) = Value (Res (calc d2)) /\
  Value (Mod (calc d1)) = Value (Mod (calc d2)).
Proof.
  intros Hc Hn Hd. unfold calc, setRes, setMod.
  cbn [DivCnt Numer Denom Res Mod Value set_Value]. rewrite Hc, Hn, Hd.
  split_ifs; split; reflexivity.
Qed.

Lemma Reg_eq (r1 r2 : Reg) :
  Value r1 = Value r2 -> RoMask r1 = RoMask r2 -> ReadCb r1 = ReadCb r2 ->
  WriteCb r1 = WriteCb r2 -> r1 = r2.
Proof. destruct r1, r2; simpl; intros; subst; reflexivity. Qed.

Lemma HwDivisor_eq (d1 d2 : HwDivisor) :
  DivCnt d1 = DivCnt d2 -> Numer d1 = Numer d2 -> Denom d1 = Denom d2 ->
  Res d1 = Res d2 -> Mod d1 = Mod d2 -> d1 = d2.
Proof. destruct d1, d2; simpl; intros; subst; reflexivity. Qed.

(** Neither division of [calc] can be by zero: the 32-bit one divides by
    [int32(Denom)] and the 64-bit one by [denom], and each is reached only
    past the test that the low 32 bits of its divisor are not zero. *)
Lemma guarded_divisor_nonzero denom : int32 denom <> 0 -> denom <> 0.
Proof. intros H ->. apply H. reflexivity. Qed.

(** *** Division by zero with a 64-bit numerator *)

(** In modes 1-3, the effective denominator is zero. *)
Definition effectiveDenom (div : HwDivisor) : Z :=
  if Z.land (Value (DivCnt div)) 3 =? 2
  then int64 (Value (Denom div))
  else int64 (int32 (Value (Denom div))).

Lemma int32_int64_zero x : int64 x = 0 -> int32 (int64 x) = 0.
Proof. intros ->. reflexivity. Qed.

(** What the code does on a zero effective denominator in modes 1-3: the
    comparison [div.Numer.Value > 0] is between unsigned values, so the
    result is all-ones for every non-zero numerator, whatever its sign. *)
Lemma calc_div0_64 div :
  Z.land (Value (DivCnt div)) 3 <> 0 ->
  effectiveDenom div = 0 ->
  Value (Mod (calc div)) = Value (Numer div) /\
  Value (Res (calc div)) =
    if Value (Numer div) >? 0 then 2 ^ 64 - 1 else 1.
Proof.
  intros Hmode Hden. unfold calc, effectiveDenom in *.
  apply Z.eqb_neq in Hmode. rewrite Hmode.
  assert (E : int32 (if negb (Z.land (Value (DivCnt div)) 3 =? 2)
                     then int64 (int32 (Value (Denom div)))
                     else int64 (Value (Denom div))) = 0).
  { destruct (Z.land (Value (DivCnt div)) 3 =? 2); simpl negb; cbv iota;
      rewrite Hden; reflexivity. }
  cbv zeta. rewrite E. simpl (0 =? 0). cbv iota.
  unfold setRes, setMod. cbn [Numer Value].
  destruct (Value (Numer div) >? 0); simpl; split; reflexivity.
Qed.

(** C1 (the code at the failing input). Mode 1, denominator 0, numerator
    0xFFFFFFFFFFFFFFFF: as a signed 64-bit value the numerator is -1, the
    effective denominator is zero, and [calc] sets the remainder to the
    numerator but the result to all-ones, not to 1. *)
Theorem calc_div0_negative_numerator :
  let div := divOf 1 0xFFFFFFFFFFFFFFFF 0 in
  Z.land (Value (DivCnt div)) 3 = 1 /\
  effectiveDenom div = 0 /\
  int64 (Value (Numer div)) = -1 /\
  Value (Mod (calc div)) = Value (Numer div) /\
  Value (Res (calc div)) = 0xFFFFFFFFFFFFFFFF /\
  Value (Res (calc div)) <> 1.
Proof. vm_compute. repeat split; try reflexivity. discriminate. Qed.

(** *** Mode 0 *)

Lemma int32_range x : - 2 ^ 31 <= int32 x < 2 ^ 31.
Proof. apply (wrapS_range 32). lia. Qed.

Lemma uint32_of_int32 x : uint32 x = 0x80000000 <-> int32 x = - 2 ^ 31.
Proof.
  unfold uint32, int32, wrapU, wrapS.
  change (2 ^ (32 - 1)) with 2147483648. change (2 ^ 32) with 4294967296.
  change (2 ^ 31) with 2147483648.
  split; intros H; Z.div_mod_to_equations; lia.
Qed.

(** A value in the signed 32-bit range, sign-extended to 64 bits and stored
    in an unsigned 64-bit register, is its two's complement pattern. *)
Lemma sext_store v : - 2 ^ 31 <= v < 2 ^ 31 -> uint64 (int64 (int32 v)) = v mod 2 ^ 64.
Proof.
  intros H. unfold int32. rewrite (wrapS_id 32) by (simpl; lia).
  unfold int64. rewrite (wrapS_id 64); [reflexivity|lia|].
  change (2 ^ (64 - 1)) with 9223372036854775808.
  change (2 ^ 31) with 2147483648 in H. lia.
Qed.



(** *** The control register's read callback *)

(** C6. [ReadDIVCNT] sets bit 14 of the value it is handed exactly when the
    full 64-bit denominator register is zero, and touches no other bit; when
    the denominator register is non-zero it returns the value as it is. The
    mode in the control register and the other registers play no part: two
    divisors with the same denominator value answer alike. *)
Theorem ReadDIVCNT_div0_flag (div : HwDivisor) (val : Z) :
  (Value (Denom div) = 0 ->
     Z.testbit (ReadDIVCNT div val) 14 = true /\
     ReadDIVCNT div val = Z.lor val 0x4000 /\
     forall i, i <> 14 -> Z.testbit (ReadDIVCNT div val) i = Z.testbit val i)
  /\
  (Value (Denom div) <> 0 -> ReadDIVCNT div val = val)
  /\
  (forall div', Value (Denom div') = Value (Denom div) ->
     ReadDIVCNT div' val = ReadDIVCNT div val).
Proof.
  unfold ReadDIVCNT. split; [|split].
  - intros ->. simpl (0 =? 0). cbv iota. change (Z.shiftl 1 14) with (2 ^ 14).
    split; [|split].
    + rewrite Z.lor_spec, Z.pow2_bits_true by lia. apply orb_true_r.
    + reflexivity.
    + intros i Hi. rewrite Z.lor_spec, Z.pow2_bits_false by lia. apply orb_false_r.
  - intros H. apply Z.eqb_neq in H. rewrite H. reflexivity.
  - intros div' ->. reflexivity.
Qed.

(** C6, on a divisor in 32-bit mode whose denominator 0x100000000 has zero
    low bits (no flag), and on one whose denominator is zero (flag set). *)
Lemma ReadDIVCNT_div0_flag_witness :
  ReadDIVCNT (divOf 0 7 0x100000000) 0 = 0 /\
  Z.testbit (ReadDIVCNT (divOf 2 7 0) 2) 14 = true.
Proof.
  split.
  - destruct (ReadDIVCNT_div0_flag (divOf 0 7 0x100000000) 0) as (_ & H & _).
    apply H. vm_compute. discriminate.
  - destruct (ReadDIVCNT_div0_flag (divOf 2 7 0) 2) as (H & _).
    destruct (H eq_refl) as [H14 _]. exact H14.
Defined.

(** *** Recomputation *)

(** C10. The recomputation run by either write callback changes nothing
    but the values of [Res] and [Mod]: the control, numerator and
    denominator registers are the same afterwards, and so are the masks and
    callbacks of [Res] and [Mod]. The values written depend on the three
    inputs only, so recomputing again changes nothing. *)
Theorem calc_only_writes_results (div : HwDivisor) (old val : Z) :
  WriteIN div old val = calc div /\
  WriteDIVCNT div old val = calc div /\
  DivCnt (calc div) = DivCnt div /\
  Numer (calc div) = Numer div /\
  Denom (calc div) = Denom div /\
  Res (calc div) = set_Value (Value (Res (calc div))) (Res div) /\
  Mod (calc div) = set_Value (Value (Mod (calc div))) (Mod div) /\
  Value (Res (calc (calc div))) = Value (Res (calc div)) /\
  Value (Mod (calc (calc div))) = Value (Mod (calc div)) /\
  calc (calc div) = calc div.
Proof.
  pose proof (calc_frame div) as (C & N & D & R1 & R2 & R3 & M1 & M2 & M3).
  pose proof (calc_frame (calc div)) as (C' & N' & D' & R1' & R2' & R3' & M1' & M2' & M3').
  assert (I : Value (Res (calc (calc div))) = Value (Res (calc div)) /\
              Value (Mod (calc (calc div))) = Value (Mod (calc div))).
  { apply calc_inputs_only; congruence. }
  destruct I as [IR IM].
  repeat split; try reflexivity; try assumption.
  - apply Reg_eq; simpl; auto.
  - apply Reg_eq; simpl; auto.
  - apply HwDivisor_eq; try congruence; apply Reg_eq; congruence.
Qed.

End Divisor.

(** ** ARM core: exception dispatch and lines ([emu/arm]) *)
Module Arm.
Import GoInt.

(** [Line]: a bit set over the three virtual lines. *)
Definition LineFiq : Z := 1.
Definition LineIrq : Z := 2.
Definition LineHalt : Z := 4.

Inductive ExceptionT : Type :=
  | ExceptionReset
  | ExceptionUndefined
  | ExceptionSwi
  | ExceptionPrefetchAbort
  | ExceptionDataAbort
  | ExceptionAddressOverflow
  | ExceptionIrq
  | ExceptionFiq.

(** The integer value of an [Exception] constant. *)
Definition excCode (exc : ExceptionT) : Z :=
  match exc with
  | ExceptionReset => 0
  | ExceptionUndefined => 1
  | ExceptionSwi => 2
  | ExceptionPrefetchAbort => 3
  | ExceptionDataAbort => 4
  | ExceptionAddressOverflow => 5
  | ExceptionIrq => 6
  | ExceptionFiq => 7
  end.

(** Modelled from the spec: the [CpuMode] constants are declared outside the
    given sources. [NewCpu] sets [_mode = 0x13] for supervisor mode, which
    is the architecture's 5-bit encoding; the other six modes follow it. *)
Definition CpuModeUser : Z := 0x10.
Definition CpuModeFiq : Z := 0x11.
Definition CpuModeIrq : Z := 0x12.
Definition CpuModeSupervisor : Z := 0x13.
Definition CpuModeAbort : Z := 0x17.
Definition CpuModeUndefined : Z := 0x1B.
Definition CpuModeSystem : Z := 0x1F.

(** CPU mode to enter when the exception is raised *)
Definition excMode : list Z :=
  [ CpuModeSupervisor; CpuModeUndefined; CpuModeSupervisor; CpuModeAbort;
    CpuModeAbort; CpuModeSupervisor; CpuModeIrq; CpuModeFiq ].

Definition excPcOffsetArm : list Z := [0; 4; 0; 4; 8; 4; 4; 4].
Definition excPcOffsetThumb : list Z := [0; 2; 0; 4; 6; 2; 4; 4].

(** [table[exc]]; an [ExceptionT] is always within the eight entries. *)
Definition at_exc (table : list Z) (exc : ExceptionT) : Z :=
  nth (Z.to_nat (excCode exc)) table 0.

Section Core.
(** The status register type [regCpsr] and the coprocessor [Cp15] are
    declared outside the given sources. *)
Context {regCpsr Cp15 : Type}.

(** The [Cpu] struct. Modelled from the spec: [reg] is a 32-bit register
    word. The bus, the coprocessor table, the JIT and the debugger are
    external collaborators and are left out; [swiHle] holds functions of
    the struct itself and is kept beside it (see [Exception]). *)
Record Cpu : Type := mkCpu {
  Regs : vec Z 16;
  Cpsr : regCpsr;
  Clock : Z;
  UsrBank : vec Z 2;
  FiqBank : vec Z 2;
  SvcBank : vec Z 2;
  AbtBank : vec Z 2;
  IrqBank : vec Z 2;
  UndBank : vec Z 2;
  SpsrBank : vec Z 5;
  UsrBank2 : vec Z 5;
  FiqBank2 : vec Z 5;
  arch : Z;
  pc : Z;
  cp15 : option Cp15;
  lines : Z;
  prevpc : Z;
  memCycles : Z;
  targetCycles : Z;
  tightExit : bool;
  DebugTrace : Z;
}.

Definition set_Regs (v : vec Z 16) (c : Cpu) : Cpu :=
  {| Regs := v; Cpsr := Cpsr c; Clock := Clock c; UsrBank := UsrBank c;
     FiqBank := FiqBank c; SvcBank := SvcBank c; AbtBank := AbtBank c;
     IrqBank := IrqBank c; UndBank := UndBank c; SpsrBank := SpsrBank c;
     UsrBank2 := UsrBank2 c; FiqBank2 := FiqBank2 c; arch := arch c; pc := pc c;
     cp15 := cp15 c; lines := lines c; prevpc := prevpc c;
     memCycles := memCycles c; targetCycles := targetCycles c;
     tightExit := tightExit c; DebugTrace := DebugTrace c |}.

Definition set_Clock (v : Z) (c : Cpu) : Cpu :=
  {| Regs := Regs c; Cpsr := Cpsr c; Clock := v; UsrBank := UsrBank c;
     FiqBank := FiqBank c; SvcBank := SvcBank c; AbtBank := AbtBank c;
     IrqBank := IrqBank c; UndBank := UndBank c; SpsrBank := SpsrBank c;
     UsrBank2 := UsrBank2 c; FiqBank2 := FiqBank2 c; arch := arch c; pc := pc c;
     cp15 := cp15 c; lines := lines c; prevpc := prevpc c;
     memCycles := memCycles c; targetCycles := targetCycles c;
     tightExit := tightExit c; DebugTrace := DebugTrace c |}.

Definition set_SpsrBank (v : vec Z 5) (c : Cpu) : Cpu :=
  {| Regs := Regs c; Cpsr := Cpsr c; Clock := Clock c; UsrBank := UsrBank c;
     FiqBank := FiqBank c; SvcBank := SvcBank c; AbtBank := AbtBank c;
     IrqBank := IrqBank c; UndBank := UndBank c; SpsrBank := v;
     UsrBank2 := UsrBank2 c; FiqBank2 := FiqBank2 c; arch := arch c; pc := pc c;
     cp15 := cp15 c; lines := lines c; prevpc := prevpc c;
     memCycles := memCycles c; targetCycles := targetCycles c;
     tightExit := tightExit c; DebugTrace := DebugTrace c |}.

Definition set_lines (v : Z) (c : Cpu) : Cpu :=
  {| Regs := Regs c; Cpsr := Cpsr c; Clock := Clock c; UsrBank := UsrBank c;
     FiqBank := FiqBank c; SvcBank := SvcBank c; AbtBank := AbtBank c;
     IrqBank := IrqBank c; UndBank := UndBank c; SpsrBank := SpsrBank c;
     UsrBank2 := UsrBank2 c; FiqBank2 := FiqBank2 c; arch := arch c; pc := pc c;
     cp15 := cp15 c; lines := v; prevpc := prevpc c;
     memCycles := memCycles c; targetCycles := targetCycles c;
     tightExit := tightExit c; DebugTrace := DebugTrace c |}.

Definition set_tightExit (v : bool) (c : Cpu) : Cpu :=
  {| Regs := Regs c; Cpsr := Cpsr c; Clock := Clock c; UsrBank := UsrBank c;
     FiqBank := FiqBank c; SvcBank := SvcBank c; AbtBank := AbtBank c;
     IrqBank := IrqBank c; UndBank := UndBank c; SpsrBank := SpsrBank c;
     UsrBank2 := UsrBank2 c; FiqBank2 := FiqBank2 c; arch := arch c; pc := pc c;
     cp15 := cp15 c; lines := lines c; prevpc := prevpc c;
     memCycles := memCycles c; targetCycles := targetCycles c;
     tightExit := v; DebugTrace := DebugTrace c |}.

(** An HLE hook, [func(cpu *Cpu) int64]: it may change the CPU it is
    handed and returns a cycle count. *)
Definition Hle : Type := Cpu -> Cpu * Z.

(** [SetSwiHle]: the 256-entry table as a finite map from the call number
    to the installed hook; a nil entry is an absent key. *)
Definition SetSwiHle (swiHle : gmap Z Hle) (swi : Z) (hle : option Hle) : gmap Z Hle :=
  match hle with
  | Some h => <[uint8 swi := h]> swiHle
  | None => delete (uint8 swi) swiHle
  end.

(** [SetLine] *)
Definition SetLine (line : Z) (val : bool) (cpu : Cpu) : Cpu :=
  if val then
    let cpu := if negb (Z.lxor (lines cpu) line =? 0)
               then set_tightExit true cpu else cpu in
    let cpu := set_lines (Z.lor (lines cpu) line) cpu in
    if negb (Z.land line (Z.lor LineFiq LineIrq) =? 0)
    then set_lines (Z.ldiff (lines cpu) LineHalt) cpu
    else cpu
  else set_lines (Z.ldiff (lines cpu) line) cpu.

(** The operations of the core that [Exception] calls and that are
    defined outside the given sources: the status register's accessors
    and its mode-aware setters (which receive the CPU to swap banks), the
    bus read, the coprocessor's exception base and the branch. *)
Record CpuOps : Type := mkOps {
  cpsr_T : regCpsr -> bool;
  cpsr_GetMode : regCpsr -> Z;
  cpsr_Uint32 : regCpsr -> Z;
  cpsr_SetT : bool -> Cpu -> Cpu;
  cpsr_SetMode : Z -> Cpu -> Cpu;
  cpsr_SetI : bool -> Cpu -> Cpu;
  cpsr_SetF : bool -> Cpu -> Cpu;
  Read16 : Cpu -> Z -> Z;
  ExceptionVector : Cp15 -> Z;
  branch_interrupt : Z -> Cpu -> Cpu;
}.

Variable ops : CpuOps.

(** [RegSpsr]: the index into [SpsrBank] of the active mode's saved
    status register; [None] is the breakpoint trap. *)
Definition RegSpsr (cpu : Cpu) : option (fin 5) :=
  let mode := cpsr_GetMode ops (Cpsr cpu) in
  if (mode =? CpuModeUser) || (mode =? CpuModeSystem) then None
  else if mode =? CpuModeFiq then Some 0%fin
  else if mode =? CpuModeSupervisor then Some 1%fin
  else if mode =? CpuModeAbort then Some 2%fin
  else if mode =? CpuModeIrq then Some 3%fin
  else if mode =? CpuModeUndefined then Some 4%fin
  else None.

Definition is_Swi (exc : ExceptionT) : bool :=
  match exc with ExceptionSwi => true | _ => false end.

Definition is_Reset_or_Fiq (exc : ExceptionT) : bool :=
  match exc with ExceptionReset | ExceptionFiq => true | _ => false end.

(** [Exception]; [swiHle] is the CPU's hook table. *)
Definition Exception (swiHle : gmap Z Hle) (exc : ExceptionT) (cpu : Cpu) : option Cpu :=
  let newmode := at_exc excMode exc in
  let pc' := if cpsr_T ops (Cpsr cpu)
             then uint32 (pc cpu + at_exc excPcOffsetThumb exc)
             else uint32 (pc cpu + at_exc excPcOffsetArm exc) in
  let hook := if is_Swi exc
              then swiHle !! Z.land (Read16 ops cpu (uint32 (pc' - 2))) 0xFF
              else None in
  match hook with
  | Some hle =>
      let '(cpu, delay) := hle cpu in
      Some (set_Clock (int64 (Clock cpu + int64 (delay + 3))) cpu)
  | None =>
      let oldcpsr := cpsr_Uint32 ops (Cpsr cpu) in
      (* Adjust CPSR for interrupt mode *)
      let cpu := cpsr_SetT ops false cpu in
      let cpu := cpsr_SetMode ops newmode cpu in
      let cpu := cpsr_SetI ops true cpu in
      let cpu := if is_Reset_or_Fiq exc then cpsr_SetF ops true cpu else cpu in
      (* Save old CPSR into SPSR, and old PC into R14, after the mode change *)
      spsr ← RegSpsr cpu;
      let cpu := set_SpsrBank (vinsert spsr oldcpsr (SpsrBank cpu)) cpu in
      let cpu := set_Regs (vinsert 14%fin pc' (Regs cpu)) cpu in
      let base := match cp15 cpu with
                  | Some cp => uint32 (ExceptionVector ops cp)
                  | None => 0
                  end in
      let cpu := set_Regs (vinsert 15%fin base (Regs cpu)) cpu in
      let cpu := set_Regs (vinsert 15%fin
                             (uint32 (Regs cpu !!! 15%fin + uint32 (excCode exc * 4)))
                             (Regs cpu)) cpu in
      let cpu := branch_interrupt ops (Regs cpu !!! 15%fin) cpu in
      Some (set_Clock (int64 (Clock cpu + 3)) cpu)
  end.

(** What the specification says of the operations above, as far as
    [Exception] relies on it: a mode set is read back, the mask-flag
    setters leave the mode alone, none of the setters writes a saved
    status register (a mode switch swaps banked general registers only),
    and the branch leaves status, saved status and link register alone. *)
Record CpuContract : Prop := mkContract {
  SetMode_GetMode : forall m cpu, 0 <= m < 32 ->
    cpsr_GetMode ops (Cpsr (cpsr_SetMode ops m cpu)) = m;
  SetI_GetMode : forall v cpu,
    cpsr_GetMode ops (Cpsr (cpsr_SetI ops v cpu)) = cpsr_GetMode ops (Cpsr cpu);
  SetF_GetMode : forall v cpu,
    cpsr_GetMode ops (Cpsr (cpsr_SetF ops v cpu)) = cpsr_GetMode ops (Cpsr cpu);
  SetT_SpsrBank : forall v cpu, SpsrBank (cpsr_SetT ops v cpu) = SpsrBank cpu;
  SetMode_SpsrBank : forall m cpu, SpsrBank (cpsr_SetMode ops m cpu) = SpsrBank cpu;
  SetI_SpsrBank : forall v cpu, SpsrBank (cpsr_SetI ops v cpu) = SpsrBank cpu;
  SetF_SpsrBank : forall v cpu, SpsrBank (cpsr_SetF ops v cpu) = SpsrBank cpu;
  branch_Cpsr : forall a cpu, Cpsr (branch_interrupt ops a cpu) = Cpsr cpu;
  branch_SpsrBank : forall a cpu, SpsrBank (branch_interrupt ops a cpu) = SpsrBank cpu;
  branch_R14 : forall a cpu,
    Regs (branch_interrupt ops a cpu) !!! 14%fin = Regs cpu !!! 14%fin;
}.

End Core.

(** *** A reference core

    Modelled from the spec (data model, CpuRegisterFile and StatusRegister):
    a status register with a 5-bit mode code, the width flag T, the mask
    flags I and F and the condition flags; a mode switch that swaps the two
    banked general registers R13 and R14 of the privileged modes; a branch
    that moves the program counter; a bus that reads a fixed memory. It
    shows that the contract above can be met and runs the examples. *)
Module Ref.

Record regCpsr : Type := mkCpsr {
  st_cond : Z;
  st_I : bool;
  st_F : bool;
  st_T : bool;
  st_mode : Z;
}.

Definition Uint32 (r : regCpsr) : Z :=
  Z.lor (Z.shiftl (st_cond r) 28)
    (Z.lor (if st_I r then 0x80 else 0)
       (Z.lor (if st_F r then 0x40 else 0)
          (Z.lor (if st_T r then 0x20 else 0) (st_mode r)))).

(** The coprocessor is its exception base. *)
Definition Cp15 : Type := Z.

Definition set_Cpsr (r : regCpsr) (c : @Cpu regCpsr Cp15) : @Cpu regCpsr Cp15 :=
  {| Regs := Regs c; Cpsr := r; Clock := Clock c; UsrBank := UsrBank c;
     FiqBank := FiqBank c; SvcBank := SvcBank c; AbtBank := AbtBank c;
     IrqBank := IrqBank c; UndBank := UndBank c; SpsrBank := SpsrBank c;
     UsrBank2 := UsrBank2 c; FiqBank2 := FiqBank2 c; arch := arch c; pc := pc c;
     cp15 := cp15 c; lines := lines c; prevpc := prevpc c;
     memCycles := memCycles c; targetCycles := targetCycles c;
     tightExit := tightExit c; DebugTrace := DebugTrace c |}.

Definition SetT (v : bool) (c : @Cpu regCpsr Cp15) : @Cpu regCpsr Cp15 :=
  set_Cpsr {| st_cond := st_cond (Cpsr c); st_I := st_I (Cpsr c); st_F := st_F (Cpsr c);
              st_T := v; st_mode := st_mode (Cpsr c) |} c.
Definition SetI (v : bool) (c : @Cpu regCpsr Cp15) : @Cpu regCpsr Cp15 :=
  set_Cpsr {| st_cond := st_cond (Cpsr c); st_I := v; st_F := st_F (Cpsr c);
              st_T := st_T (Cpsr c); st_mode := st_mode (Cpsr c) |} c.
Definition SetF (v : bool) (c : @Cpu regCpsr Cp15) : @Cpu regCpsr Cp15 :=
  set_Cpsr {| st_cond := st_cond (Cpsr c); st_I := st_I (Cpsr c); st_F := v;
              st_T := st_T (Cpsr c); st_mode := st_mode (Cpsr c) |} c.

(** The bank a mode keeps its R13 and R14 in: 0 user and system, 1 FIQ,
    2 supervisor, 3 abort, 4 IRQ, 5 undefined. *)
Definition bankIdx (mode : Z) : Z :=
  if mode =? CpuModeFiq then 1
  else if mode =? CpuModeSupervisor then 2
  else if mode =? CpuModeAbort then 3
  else if mode =? CpuModeIrq then 4
  else if mode =? CpuModeUndefined then 5
  else 0.

Definition SetMode (m : Z) (c : @Cpu regCpsr Cp15) : @Cpu regCpsr Cp15 :=
  let old := bankIdx (st_mode (Cpsr c)) in
  let new := bankIdx m in
  let saved : vec Z 2 := [# Regs c !!! 13%fin; Regs c !!! 14%fin ] in
  let bank (i : Z) (cur : vec Z 2) := if old =? i then saved else cur in
  let usr := bank 0 (UsrBank c) in
  let fiq := bank 1 (FiqBank c) in
  let svc := bank 2 (SvcBank c) in
  let abt := bank 3 (AbtBank c) in
  let irq := bank 4 (IrqBank c) in
  let und := bank 5 (UndBank c) in
  let loaded := if new =? 1 then fiq else if new =? 2 then svc
                else if new =? 3 then abt else if new =? 4 then irq
                else if new =? 5 then und else usr in
  {| Regs := vinsert 14%fin (loaded !!! 1%fin) (vinsert 13%fin (loaded !!! 0%fin) (Regs c));
     Cpsr := {| st_cond := st_cond (Cpsr c); st_I := st_I (Cpsr c);
                st_F := st_F (Cpsr c); st_T := st_T (Cpsr c); st_mode := m |};
     Clock := Clock c; UsrBank := usr; FiqBank := fiq; SvcBank := svc;
     AbtBank := abt; IrqBank := irq; UndBank := und; SpsrBank := SpsrBank c;
     UsrBank2 := UsrBank2 c; FiqBank2 := FiqBank2 c; arch := arch c; pc := pc c;
     cp15 := cp15 c; lines := lines c; prevpc := prevpc c;
     memCycles := memCycles c; targetCycles := targetCycles c;
     tightExit := tightExit c; DebugTrace := DebugTrace c |}.

Definition branch (a : Z) (c : @Cpu regCpsr Cp15) : @Cpu regCpsr Cp15 :=
  {| Regs := Regs c; Cpsr := Cpsr c; Clock := Clock c; UsrBank := UsrBank c;
     FiqBank := FiqBank c; SvcBank := SvcBank c; AbtBank := AbtBank c;
     IrqBank := IrqBank c; UndBank := UndBank c; SpsrBank := SpsrBank c;
     UsrBank2 := UsrBank2 c; FiqBank2 := FiqBank2 c; arch := arch c; pc := a;
     cp15 := cp15 c; lines := lines c; prevpc := pc c;
     memCycles := memCycles c; targetCycles := targetCycles c;
     tightExit := tightExit c; DebugTrace := DebugTrace c |}.

(** The operations over a memory of halfwords. *)
Definition ops (mem : Z -> Z) : @CpuOps regCpsr Cp15 :=
  {| cpsr_T := st_T; cpsr_GetMode := st_mode; cpsr_Uint32 := Uint32;
     cpsr_SetT := SetT; cpsr_SetMode := SetMode; cpsr_SetI := SetI;
     cpsr_SetF := SetF; Read16 := fun _ addr => uint16 (mem addr);
     ExceptionVector := fun base => base; branch_interrupt := branch |}.

Lemma contract mem : CpuContract (ops mem).
Proof. constructor; intros; reflexivity. Qed.

(** A core as [NewCpu] leaves it (supervisor mode, everything else zero),
    at program counter [pc0], in the given width and mode, with the given
    lines. *)
Definition cpuAt (pc0 : Z) (thumb : bool) (mode : Z) (lines0 : Z) : @Cpu regCpsr Cp15 :=
  {| Regs := vreplicate 16 0; Cpsr := mkCpsr 0 false false thumb mode; Clock := 0;
     UsrBank := vreplicate 2 0; FiqBank := vreplicate 2 0; SvcBank := vreplicate 2 0;
     AbtBank := vreplicate 2 0; IrqBank := vreplicate 2 0; UndBank := vreplicate 2 0;
     SpsrBank := vreplicate 5 0; UsrBank2 := vreplicate 5 0; FiqBank2 := vreplicate 5 0;
     arch := 5; pc := pc0; cp15 := None; lines := lines0; prevpc := 0;
     memCycles := 1; targetCycles := 0; tightExit := false; DebugTrace := 0 |}.

End Ref.

(** *** Exception dispatch *)

Lemma int64_add_int64 a b : int64 (a + int64 b) = int64 (a + b).
Proof.
  unfold int64, wrapS. f_equal.
  replace (a + ((b + 2 ^ (64 - 1)) mod 2 ^ 64 - 2 ^ (64 - 1)) + 2 ^ (64 - 1))
    with (a + (b + 2 ^ (64 - 1)) mod 2 ^ 64) by lia.
  rewrite Zplus_mod_idemp_r. f_equal. lia.
Qed.

Lemma uint32_sub_uint32 a b : uint32 (uint32 a - b) = uint32 (a - b).
Proof. unfold uint32, wrapU. apply Zminus_mod_idemp_l. Qed.

Section Dispatch.
Context {regCpsr Cp15 : Type}.
Variable ops : @CpuOps regCpsr Cp15.

Lemma RegSpsr_Irq (cpu : @Cpu regCpsr Cp15) :
  cpsr_GetMode ops (Cpsr cpu) = CpuModeIrq -> RegSpsr ops cpu = Some 3%fin.
Proof. intros H. unfold RegSpsr. rewrite H. reflexivity. Qed.

End Dispatch.

(** C3. Dispatching [Exception(ExceptionIrq)], for any core whose
    status-register operations and branch meet the contract, always takes
    the real exception path (no hook applies to an IRQ) and returns a core
    that is in IRQ mode, whose R14 is pc+4 as a 32-bit word whether the
    width flag T was set (Thumb) or not (ARM), and whose saved-status bank
    holds the pre-exception status value in entry 3, the entry [RegSpsr]
    designates in IRQ mode; the other four entries, among them the previous
    mode's, are as before. *)
Theorem Exception_Irq {regCpsr Cp15 : Type} (ops : @CpuOps regCpsr Cp15)
    (swiHle : gmap Z (@Hle regCpsr Cp15)) (cpu : @Cpu regCpsr Cp15) :
  CpuContract ops ->
  exists cpu',
    Exception ops swiHle ExceptionIrq cpu = Some cpu' /\
    cpsr_GetMode ops (Cpsr cpu') = CpuModeIrq /\
    Regs cpu' !!! 14%fin = uint32 (pc cpu + 4) /\
    RegSpsr ops cpu' = Some 3%fin /\
    SpsrBank cpu' !!! 3%fin = cpsr_Uint32 ops (Cpsr cpu) /\
    (forall i : fin 5, i <> 3%fin -> SpsrBank cpu' !!! i = SpsrBank cpu !!! i).
Proof.
  intros C. unfold Exception. cbn [is_Swi is_Reset_or_Fiq].
  set (pc' := if cpsr_T ops (Cpsr cpu) then _ else _).
  assert (Hpc : pc' = uint32 (pc cpu + 4)) by (unfold pc'; destruct (cpsr_T _ _); reflexivity).
  set (c3 := cpsr_SetI ops true (cpsr_SetMode ops _ (cpsr_SetT ops false cpu))).
  assert (M3 : cpsr_GetMode ops (Cpsr c3) = CpuModeIrq).
  { unfold c3. rewrite (SetI_GetMode _ C). apply (SetMode_GetMode _ C).
    change (0 <= 18 < 32). lia. }
  assert (S3 : SpsrBank c3 = SpsrBank cpu).
  { unfold c3. rewrite (SetI_SpsrBank _ C), (SetMode_SpsrBank _ C). apply (SetT_SpsrBank _ C). }
  rewrite (RegSpsr_Irq ops c3 M3). cbn [mbind option_bind].
  eexists. split; [reflexivity|].
  split; [|split; [|split; [|split]]].
  - cbn [set_Clock Cpsr]. rewrite (branch_Cpsr _ C). exact M3.
  - cbn [set_Clock Regs]. rewrite (branch_R14 _ C). cbn [set_Regs Regs].
    rewrite !vlookup_insert_ne by discriminate. rewrite vlookup_insert. exact Hpc.
  - apply RegSpsr_Irq. cbn [set_Clock Cpsr]. rewrite (branch_Cpsr _ C). exact M3.
  - cbn [set_Clock SpsrBank]. rewrite (branch_SpsrBank _ C). cbn [set_Regs set_SpsrBank SpsrBank].
    apply vlookup_insert.
  - intros i Hi. cbn [set_Clock SpsrBank]. rewrite (branch_SpsrBank _ C).
    cbn [set_Regs set_SpsrBank SpsrBank].
    rewrite vlookup_insert_ne by congruence. rewrite S3. reflexivity.
Qed.

(** C3, on the reference core at pc 0x1000 in supervisor mode, in ARM and
    in Thumb width: IRQ mode (0x12), R14 = 0x1004, and the old status value
    (0x13, with bit 5 set in Thumb width) in entry 3 of the bank. *)
Lemma Exception_Irq_witness :
  (exists cpu', Exception (Ref.ops (fun _ => 0)) ∅ ExceptionIrq
                  (Ref.cpuAt 0x1000 false CpuModeSupervisor 0) = Some cpu' /\
                Ref.st_mode (Cpsr cpu') = 0x12 /\ Regs cpu' !!! 14%fin = 0x1004 /\
                SpsrBank cpu' !!! 3%fin = 0x13 /\ SpsrBank cpu' !!! 1%fin = 0) /\
  (exists cpu', Exception (Ref.ops (fun _ => 0)) ∅ ExceptionIrq
                  (Ref.cpuAt 0x1000 true CpuModeSupervisor 0) = Some cpu' /\
                Ref.st_mode (Cpsr cpu') = 0x12 /\ Regs cpu' !!! 14%fin = 0x1004 /\
                SpsrBank cpu' !!! 3%fin = 0x33 /\ SpsrBank cpu' !!! 1%fin = 0).
Proof.
  split.
  - destruct (Exception_Irq (Ref.ops (fun _ => 0)) ∅
                (Ref.cpuAt 0x1000 false CpuModeSupervisor 0) (Ref.contract _))
      as (cpu' & E & M & R & _ & S & O).
    exists cpu'. repeat split; try assumption. apply (O 1%fin). discriminate.
  - destruct (Exception_Irq (Ref.ops (fun _ => 0)) ∅
                (Ref.cpuAt 0x1000 true CpuModeSupervisor 0) (Ref.contract _))
      as (cpu' & E & M & R & _ & S & O).
    exists cpu'. repeat split; try assumption. apply (O 1%fin). discriminate.
Defined.

(** C4. When the hook table has a hook for the call number that
    [Exception(ExceptionSwi)] reads (the low byte of the halfword at pc-2),
    the hook is run on the CPU and the result is the CPU as the hook left
    it with the clock advanced by the hook's cycle count plus 3 (in 64-bit
    arithmetic). Nothing else is written after the hook returns: status
    register and mode, saved-status bank, general registers (link register
    and R15 among them), program counter, register banks and lines are
    those the hook left, so a hook that leaves them alone leaves them as
    they were before the exception. No mode switch or vector jump is
    made. *)
Theorem Exception_Swi_hle {regCpsr Cp15 : Type} (ops : @CpuOps regCpsr Cp15)
    (swiHle : gmap Z (@Hle regCpsr Cp15)) (cpu : @Cpu regCpsr Cp15)
    (hle : @Hle regCpsr Cp15) :
  swiHle !! Z.land (Read16 ops cpu (uint32 (pc cpu - 2))) 0xFF = Some hle ->
  let after := (hle cpu).1 in
  let delay := (hle cpu).2 in
  exists cpu',
    Exception ops swiHle ExceptionSwi cpu = Some cpu' /\
    cpu' = set_Clock (int64 (Clock after + delay + 3)) after /\
    Clock cpu' = int64 (Clock after + delay + 3) /\
    Cpsr cpu' = Cpsr after /\
    cpsr_GetMode ops (Cpsr cpu') = cpsr_GetMode ops (Cpsr after) /\
    SpsrBank cpu' = SpsrBank after /\
    Regs cpu' = Regs after /\
    pc cpu' = pc after /\
    lines cpu' = lines after /\
    (after = cpu -> cpu' = set_Clock (int64 (Clock cpu + delay + 3)) cpu).
Proof.
  intros H after delay. unfold Exception. cbn [is_Swi].
  assert (N : (if cpsr_T ops (Cpsr cpu)
               then uint32 (pc cpu + at_exc excPcOffsetThumb ExceptionSwi)
               else uint32 (pc cpu + at_exc excPcOffsetArm ExceptionSwi)) = uint32 (pc cpu)).
  { destruct (cpsr_T _ _); f_equal; change (at_exc _ _) with 0; lia. }
  rewrite N, uint32_sub_uint32.
  match goal with
  | |- context [match ?x with Some _ => _ | None => _ end] =>
      replace x with (Some hle) by (symmetry; exact H)
  end.
  unfold after, delay. destruct (hle cpu) as [c1 d]. cbn [fst snd].
  rewrite int64_add_int64, Z.add_assoc.
  eexists. split; [reflexivity|].
  repeat split. intros ->. reflexivity.
Qed.

(** C4, on the reference core: call number 5 (the halfword at pc-2 is
    0xDF05) is hooked by a function that writes R0 and returns 10 cycles;
    the exception returns the core with R0 written, the clock at 13, and
    mode, link register and program counter as before. *)
Lemma Exception_Swi_hle_witness :
  let hook : @Hle Ref.regCpsr Ref.Cp15 :=
    fun c => (set_Regs (vinsert 0%fin 42 (Regs c)) c, 10) in
  let cpu := Ref.cpuAt 0x2000 true CpuModeUser 0 in
  exists cpu',
    Exception (Ref.ops (fun _ => 0xDF05)) (SetSwiHle ∅ 5 (Some hook)) ExceptionSwi cpu
      = Some cpu' /\
    Clock cpu' = 13 /\ Regs cpu' !!! 0%fin = 42 /\
    Ref.st_mode (Cpsr cpu') = CpuModeUser /\ Regs cpu' !!! 14%fin = 0 /\
    pc cpu' = 0x2000 /\ SpsrBank cpu' = SpsrBank cpu.
Proof.
  intros hook cpu.
  destruct (Exception_Swi_hle (Ref.ops (fun _ => 0xDF05)) (SetSwiHle ∅ 5 (Some hook)) cpu hook)
    as (cpu' & E & -> & _).
  - apply (lookup_insert_eq (M := gmap Z)).
  - exists (set_Clock (int64 (Clock (hook cpu).1 + (hook cpu).2 + 3)) (hook cpu).1).
    split; [exact E|]. repeat split.
Defined.

(** *** Lines *)

Lemma ldiff_land_same a b : Z.land (Z.ldiff a b) b = 0.
Proof.
  apply Z.bits_inj'. intros n _.
  rewrite Z.land_spec, Z.ldiff_spec, Z.bits_0.
  destruct (Z.testbit a n), (Z.testbit b n); reflexivity.
Qed.

(** C5. For every core state, whatever its status register holds:
    asserting the IRQ or the FIQ line leaves the Halt line deasserted (bit
    2 of the line set is clear, and the line set has the asserted line);
    deasserting any line set [line] only clears the bits of [line] in the
    line set: every other bit, the tight-exit flag and all other fields of
    the core stay as they are, and deasserting IRQ or FIQ leaves the Halt
    bit as it was. *)
Theorem SetLine_halt_and_deassert {regCpsr Cp15 : Type}
    (cpu : @Cpu regCpsr Cp15) (line : Z) :
  (Z.land (lines (SetLine LineIrq true cpu)) LineHalt = 0 /\
   Z.testbit (lines (SetLine LineIrq true cpu)) 2 = false /\
   Z.testbit (lines (SetLine LineIrq true cpu)) 1 = true) /\
  (Z.land (lines (SetLine LineFiq true cpu)) LineHalt = 0 /\
   Z.testbit (lines (SetLine LineFiq true cpu)) 2 = false /\
   Z.testbit (lines (SetLine LineFiq true cpu)) 0 = true) /\
  SetLine line false cpu = set_lines (Z.ldiff (lines cpu) line) cpu /\
  (forall i, Z.testbit (lines (SetLine line false cpu)) i
             = Z.testbit (lines cpu) i && negb (Z.testbit line i)) /\
  tightExit (SetLine line false cpu) = tightExit cpu /\
  Cpsr (SetLine line false cpu) = Cpsr cpu /\
  Z.testbit (lines (SetLine LineIrq false cpu)) 2 = Z.testbit (lines cpu) 2 /\
  Z.testbit (lines (SetLine LineFiq false cpu)) 2 = Z.testbit (lines cpu) 2.
Proof.
  assert (A : forall l, l = LineIrq \/ l = LineFiq ->
                lines (SetLine l true cpu) = Z.ldiff (Z.lor (lines cpu) l) LineHalt).
  { intros l [-> | ->]; unfold SetLine; cbn [negb];
      destruct (negb (Z.lxor (lines cpu) _ =? 0)); reflexivity. }
  split; [|split; [|split; [|split; [|split; [|split; [|split]]]]]].
  - rewrite (A LineIrq) by auto. split; [apply ldiff_land_same|].
    rewrite !Z.ldiff_spec, !Z.lor_spec. cbn. split; [apply andb_false_r|].
    rewrite orb_true_r. reflexivity.
  - rewrite (A LineFiq) by auto. split; [apply ldiff_land_same|].
    rewrite !Z.ldiff_spec, !Z.lor_spec. cbn. split; [apply andb_false_r|].
    rewrite orb_true_r. reflexivity.
  - reflexivity.
  - intros i. unfold SetLine. cbn [lines set_lines]. apply Z.ldiff_spec.
  - reflexivity.
  - reflexivity.
  - unfold SetLine. cbn [lines set_lines]. rewrite Z.ldiff_spec.
    change (Z.testbit LineIrq 2) with false. apply andb_true_r.
  - unfold SetLine. cbn [lines set_lines]. rewrite Z.ldiff_spec.
    change (Z.testbit LineFiq 2) with false. apply andb_true_r.
Qed.

(** The specification's example: the core is halted with both mask flags
    set in the status register; asserting IRQ still releases Halt, and marks
    the tight loop for exit. *)
Example SetLine_Irq_wakes_masked_core :
  let cpu := Ref.SetF true (Ref.SetI true (Ref.cpuAt 0 false CpuModeSupervisor LineHalt)) in
  Ref.st_I (Cpsr cpu) = true /\ Ref.st_F (Cpsr cpu) = true /\
  lines cpu = LineHalt /\
  lines (SetLine LineIrq true cpu) = LineIrq /\
  tightExit (SetLine LineIrq true cpu) = true.
Proof. repeat split; reflexivity. Qed.

End Arm.

(** ** Touchscreen controller *)
Module Touchscreen.
Import GoInt.

Record HwTouchScreen : Type := mkTsc {
  penX : Z;
  penY : Z;
  penDown : bool;
}.

Definition NewHwTouchScreen : HwTouchScreen := mkTsc 0 0 false.

Definition SetPen (down : bool) (x y : Z) (ff : HwTouchScreen) : HwTouchScreen :=
  {| penX := x; penY := y; penDown := down |}.

Section Transfer.
(** [Emu.Mem.Ram], the emulated RAM image: the byte at an offset. *)
Variable Ram : Z -> Z.

Definition Ram8 (off : Z) : Z := uint8 (Ram off).

(** [binary.LittleEndian.Uint16(Ram[off:])] *)
Definition LittleEndian_Uint16 (off : Z) : Z :=
  Z.lor (Ram8 off) (Z.shiftl (Ram8 (off + 1)) 8).

(** The [switch adchan] of [transfer]: the 12-bit output for a command
    byte. [int] is taken as 64 bits wide; [None] is the run-time panic of
    an integer division by zero. *)
Definition sample (ff : HwTouchScreen) (cmd : Z) : option Z :=
  let adchan := Z.land (Z.shiftr cmd 4) 7 in
  if adchan =? 0 then Some 0x800
  else if adchan =? 1 then
    (* Y coord *)
    if penDown ff then
      let adcY1 := LittleEndian_Uint16 (0x3FFC80 + 0x5A) in
      let scrY1 := Ram8 (0x3FFC80 + 0x5D) in
      let adcY2 := LittleEndian_Uint16 (0x3FFC80 + 0x60) in
      let scrY2 := Ram8 (0x3FFC80 + 0x63) in
      if uint8 (scrY2 - scrY1) =? 0 then None
      else Some (uint16 (int64 (div64 (int64 (int64 (int64 (penY ff - scrY1) + 1)
                                              * uint16 (adcY2 - adcY1)))
                                      (uint8 (scrY2 - scrY1))
                                + adcY1)))
    else Some 0xFFF
  else if adchan =? 5 then
    (* X coord *)
    if penDown ff then
      let adcX1 := LittleEndian_Uint16 (0x3FFC80 + 0x58) in
      let scrX1 := Ram8 (0x3FFC80 + 0x5C) in
      let adcX2 := LittleEndian_Uint16 (0x3FFC80 + 0x5E) in
      let scrX2 := Ram8 (0x3FFC80 + 0x62) in
      if uint8 (scrX2 - scrX1) =? 0 then None
      else Some (uint16 (int64 (div64 (int64 (int64 (int64 (penX ff - scrX1) + 1)
                                              * uint16 (adcX2 - adcX1)))
                                      (uint8 (scrX2 - scrX1))
                                + adcX1)))
    else Some 0x0
  else
    (* channel unimplemented: a warning, and the output stays zero *)
    Some 0.

(** The two bytes a conversion sends: 12-bit or 8-bit framing. *)
Definition frame (cmd output : Z) : Z * Z :=
  let bits8 := negb (Z.land (Z.shiftr cmd 3) 1 =? 0) in
  if negb bits8 then
    (uint8 (Z.shiftr output 5), uint8 (uint16 (Z.shiftl output 3)))
  else
    let output := Z.shiftr output 4 in
    (uint8 (Z.shiftr output 1), uint8 (uint16 (Z.shiftl output 7))).

(** The routine seen from the caller: [ins] are the bytes the caller
    offers before it closes the channel, the result is the replies it
    gets, one per byte offered. [convert] is the code from the label
    [start] on, [transfer] the idle scan before it. *)
Fixpoint convert (ff : HwTouchScreen) (cmd : Z) (ins : list Z) {struct ins}
  : option (list Z) :=
  match sample ff cmd with
  | None => None
  | Some output =>
      let '(b1, b2) := frame cmd output in
      match ins with
      | [] => Some []
      | [_] => Some [b1]
      | _ :: cmd' :: rest =>
          if negb (Z.land cmd' 0x80 =? 0)
          then match convert ff cmd' rest with
               | Some out => Some (b1 :: b2 :: out)
               | None => None
               end
          else Some (b1 :: b2 :: map (fun _ => 0) rest)
      end
  end.

Fixpoint transfer (ff : HwTouchScreen) (ins : list Z) : option (list Z) :=
  match ins with
  | [] => Some []
  | cmd :: rest =>
      if negb (Z.land cmd 0x80 =? 0)
      then match convert ff cmd rest with
           | Some out => Some (0 :: out)
           | None => None
           end
      else match transfer ff rest with
           | Some out => Some (0 :: out)
           | None => None
           end
  end.

End Transfer.

(** C9. With the pen up, a conversion whose command byte selects channel 1
    (Y coordinate) computes the sample 0xFFF, and one that selects channel 5
    (X coordinate) computes the sample 0, whatever the calibration data in
    RAM, the pen position and the other bits of the command. *)
Theorem sample_pen_up (Ram : Z -> Z) (ff : HwTouchScreen) (cmd : Z) :
  penDown ff = false ->
  (Z.land (Z.shiftr cmd 4) 7 = 1 -> sample Ram ff cmd = Some 0xFFF) /\
  (Z.land (Z.shiftr cmd 4) 7 = 5 -> sample Ram ff cmd = Some 0).
Proof.
  intros Hup. unfold sample. rewrite Hup.
  split; intros ->; reflexivity.
Qed.

(** C9, on the commands 0x90 (start, channel 1, 12 bits) and 0xD0 (start,
    channel 5, 12 bits) with the pen up at (100, 50). *)
Lemma sample_pen_up_witness :
  sample (fun _ => 0) (SetPen false 100 50 NewHwTouchScreen) 0x90 = Some 0xFFF /\
  sample (fun _ => 0) (SetPen false 100 50 NewHwTouchScreen) 0xD0 = Some 0.
Proof.
  split.
  - apply (sample_pen_up (fun _ => 0) (SetPen false 100 50 NewHwTouchScreen) 0x90 eq_refl).
    reflexivity.
  - apply (sample_pen_up (fun _ => 0) (SetPen false 100 50 NewHwTouchScreen) 0xD0 eq_refl).
    reflexivity.
Defined.

(** The pen-up sample of channel 1 on the wire: after the reply to the
    command, 0xFFF goes out as 0x7F (leading zero bit and seven bits) and
    0xF8 (the low five bits). *)
Example transfer_pen_up_Y :
  transfer (fun _ => 0) NewHwTouchScreen [0x00; 0x90; 0x00; 0x00] = Some [0; 0; 0x7F; 0xF8].
Proof. reflexivity. Qed.

End Touchscreen.

(** ** [InitRegs] at work *)
Module HwioExamples.
Import Hwio Divisor.








End HwioExamples.

(** ** More on the divisor: the 64-bit path, read-back and construction *)
Module DivisorFacts.
Import GoInt Hwio Divisor.

Lemma uint64_int64 x : uint64 (int64 x) = x mod 2 ^ 64.
Proof.
  unfold uint64, int64, wrapU, wrapS.
  change (2 ^ (64 - 1)) with 9223372036854775808.
  change (2 ^ 64) with 18446744073709551616.
  Z.div_mod_to_equations. lia.
Qed.

Lemma int64_uint64 x : int64 (x mod 2 ^ 64) = int64 x.
Proof.
  unfold int64, wrapS.
  change (2 ^ (64 - 1)) with 9223372036854775808.
  change (2 ^ 64) with 18446744073709551616.
  Z.div_mod_to_equations. lia.
Qed.

Lemma int64_range x : - 2 ^ 63 <= int64 x < 2 ^ 63.
Proof. apply (wrapS_range 64). lia. Qed.

Lemma int64_min_iff x : uint64 x = 2 ^ 63 <-> int64 x = - 2 ^ 63.
Proof.
  unfold uint64, int64, wrapU, wrapS.
  change (2 ^ (64 - 1)) with 9223372036854775808.
  change (2 ^ 64) with 18446744073709551616.
  change (2 ^ 63) with 9223372036854775808.
  split; intros H; Z.div_mod_to_equations; lia.
Qed.

Lemma int32_int64 x : int32 (int64 x) = int32 x.
Proof.
  unfold int32, int64, wrapS.
  change (2 ^ (64 - 1)) with 9223372036854775808.
  change (2 ^ 64) with 18446744073709551616.
  change (2 ^ (32 - 1)) with 2147483648.
  change (2 ^ 32) with 4294967296.
  Z.div_mod_to_equations. lia.
Qed.

Lemma int32_idem x : int32 (int32 x) = int32 x.
Proof.
  unfold int32, wrapS.
  change (2 ^ (32 - 1)) with 2147483648.
  change (2 ^ 32) with 4294967296.
  Z.div_mod_to_equations. lia.
Qed.

(** The low 32 bits of the effective denominator are those of the
    denominator register, in every mode. *)
Lemma int32_effectiveDenom div : int32 (effectiveDenom div) = int32 (Value (Denom div)).
Proof.
  unfold effectiveDenom. destruct (_ =? 2).
  - apply int32_int64.
  - rewrite int32_int64. apply int32_idem.
Qed.

(** [calc] past the mode test, for modes 1-3, in terms of the effective
    denominator. *)
Lemma calc_wide div :
  Z.land (Value (DivCnt div)) 3 <> 0 ->
  calc div =
    let denom := effectiveDenom div in
    if int32 denom =? 0 then
      if Value (Numer div) >? 0
      then setRes (uint64 0xFFFFFFFFFFFFFFFF) (setMod (Value (Numer div)) div)
      else setRes 1 (setMod (Value (Numer div)) div)
    else if (int32 denom =? -1) && (uint64 (Value (Numer div)) =? 0x8000000000000000)
    then setRes (Value (Numer div)) (setMod 0 div)
    else setMod (uint64 (rem64 (int64 (Value (Numer div))) denom))
           (setRes (uint64 (div64 (int64 (Value (Numer div))) denom)) div).
Proof.
  intros Hmode. apply Z.eqb_neq in Hmode. unfold calc, effectiveDenom.
  rewrite Hmode. destruct (Z.land (Value (DivCnt div)) 3 =? 2); reflexivity.
Qed.

(** X1. In modes 1-3, when the low 32 bits of the effective denominator are
    not zero: if they are all ones and the numerator is the minimum signed
    64-bit value, the remainder is 0 and the result is the numerator;
    otherwise the result and the remainder are the truncating quotient and
    remainder of the signed 64-bit numerator by the effective denominator,
    the quotient fits 64 bits, and numerator = denominator * quotient +
    remainder with the remainder smaller in magnitude than the
    denominator. *)
Theorem calc_wide_division (div : HwDivisor) :
  Z.land (Value (DivCnt div)) 3 <> 0 ->
  int32 (effectiveDenom div) <> 0 ->
  let n := int64 (Value (Numer div)) in
  let d := effectiveDenom div in
  (int32 d = -1 /\ uint64 (Value (Numer div)) = 2 ^ 63 ->
     Value (Mod (calc div)) = 0 /\
     Value (Res (calc div)) = Value (Numer div))
  /\
  (~ (int32 d = -1 /\ uint64 (Value (Numer div)) = 2 ^ 63) ->
     - 2 ^ 63 <= Z.quot n d < 2 ^ 63 /\
     Value (Res (calc div)) = Z.quot n d mod 2 ^ 64 /\
     Value (Mod (calc div)) = Z.rem n d mod 2 ^ 64 /\
     n = d * Z.quot n d + Z.rem n d /\
     Z.abs (Z.rem n d) < Z.abs d).
Proof.
  intros Hmode Hnz n d. rewrite (calc_wide div Hmode). cbv zeta. fold d.
  apply Z.eqb_neq in Hnz. fold d in Hnz. rewrite Hnz.
  split.
  - intros [Hd Hn]. rewrite Hd. change (2 ^ 63) with 9223372036854775808 in Hn.
    rewrite Hn. simpl. split; reflexivity.
  - intros Hov.
    assert (B : (int32 d =? -1) && (uint64 (Value (Numer div)) =? 9223372036854775808) = false).
    { apply not_true_is_false. intros B. apply andb_true_iff in B as [B1 B2].
      apply Z.eqb_eq in B1, B2. apply Hov. split; assumption. }
    rewrite B. cbn [setMod setRes Res Mod Value set_Value].
    assert (Dnz : d <> 0).
    { apply guarded_divisor_nonzero. apply Z.eqb_neq. exact Hnz. }
    assert (Rd : - 2 ^ 63 <= d < 2 ^ 63).
    { unfold d, effectiveDenom. destruct (_ =? 2); apply int64_range. }
    pose proof (int64_range (Value (Numer div))) as Rn. fold n in Rn.
    assert (Q : - 2 ^ 63 <= Z.quot n d < 2 ^ 63).
    { apply quot_in_range; try assumption; [lia|].
      intros [A1 A2]. apply Hov. split.
      - rewrite A2. reflexivity.
      - apply int64_min_iff. exact A1. }
    split; [exact Q|].
    unfold div64, rem64. rewrite !uint64_int64.
    split; [reflexivity|]. split; [reflexivity|].
    split; [apply Z.quot_rem'|].
    apply Z.rem_bound_abs. exact Dnz.
Qed.

(** X1, on 20 / 7 in mode 1, on -20 / 7 in mode 2 and on the minimum value
    divided by -1 in mode 3. *)
Lemma calc_wide_division_witness :
  (Value (Res (calc (divOf 1 20 7))) = 2 /\ Value (Mod (calc (divOf 1 20 7))) = 6) /\
  (Value (Res (calc (divOf 2 (2 ^ 64 - 20) 7))) = 2 ^ 64 - 2 /\
   Value (Mod (calc (divOf 2 (2 ^ 64 - 20) 7))) = 2 ^ 64 - 6) /\
  (Value (Res (calc (divOf 3 (2 ^ 63) 0xFFFFFFFF))) = 2 ^ 63 /\
   Value (Mod (calc (divOf 3 (2 ^ 63) 0xFFFFFFFF))) = 0).
Proof.
  split; [|split].
  - destruct (calc_wide_division (divOf 1 20 7)) as [_ H];
      [vm_compute; discriminate | vm_compute; discriminate |].
    destruct H as (_ & HR & HM & _); [vm_compute; intros [? _]; discriminate|].
    split; [exact HR | exact HM].
  - destruct (calc_wide_division (divOf 2 (2 ^ 64 - 20) 7)) as [_ H];
      [vm_compute; discriminate | vm_compute; discriminate |].
    destruct H as (_ & HR & HM & _); [vm_compute; intros [? _]; discriminate|].
    split; [exact HR | exact HM].
  - destruct (calc_wide_division (divOf 3 (2 ^ 63) 0xFFFFFFFF)) as [H _];
      [vm_compute; discriminate | vm_compute; discriminate |].
    destruct (H (conj eq_refl eq_refl)) as [HM HR]. split; [exact HR | exact HM].
Defined.

(** X2. In modes 1-3 the test for a zero denominator looks at the low 32
    bits only. Whenever the low 32 bits of the denominator register are
    zero, [calc] takes the division-by-zero branch (remainder = numerator,
    result all-ones for a non-zero numerator register and 1 for zero), also
    in mode 2 with a denominator such as 2^32 that is not zero; and for such
    a non-zero denominator [ReadDIVCNT] leaves the value it is handed
    untouched, reporting no division by zero. *)
Theorem calc_low_bits_zero (div : HwDivisor) (val : Z) :
  Z.land (Value (DivCnt div)) 3 <> 0 ->
  int32 (Value (Denom div)) = 0 ->
  Value (Mod (calc div)) = Value (Numer div) /\
  Value (Res (calc div)) = (if Value (Numer div) >? 0 then 2 ^ 64 - 1 else 1) /\
  (Value (Denom div) <> 0 -> ReadDIVCNT div val = val).
Proof.
  intros Hmode Hlow. rewrite (calc_wide div Hmode). cbv zeta.
  rewrite int32_effectiveDenom, Hlow. simpl (0 =? 0). cbv iota.
  split; [|split].
  - destruct (Value (Numer div) >? 0); reflexivity.
  - destruct (Value (Numer div) >? 0); reflexivity.
  - intros Hnz. unfold ReadDIVCNT. apply Z.eqb_neq in Hnz. rewrite Hnz. reflexivity.
Qed.

(** X2, on 20 / 2^32 in mode 2: the full 64-bit denominator is 2^32, the
    result is all-ones, the remainder 20, and the control register reads
    back without the division-by-zero flag. *)
Lemma calc_low_bits_zero_witness :
  Value (Res (calc (divOf 2 20 (2 ^ 32)))) = 2 ^ 64 - 1 /\
  Value (Mod (calc (divOf 2 20 (2 ^ 32)))) = 20 /\
  ReadDIVCNT (divOf 2 20 (2 ^ 32)) 2 = 2.
Proof.
  destruct (calc_low_bits_zero (divOf 2 20 (2 ^ 32)) 2) as (HM & HR & HF);
    [vm_compute; discriminate | reflexivity |].
  split; [exact HR|]. split; [exact HM|]. apply HF. vm_compute. discriminate.
Defined.

(** [calc] past the mode test, for mode 0. *)
Lemma calc_narrow div :
  Z.land (Value (DivCnt div)) 3 = 0 ->
  let n := int32 (Value (Numer div)) in
  let d := int32 (Value (Denom div)) in
  d <> 0 -> ~ (d = -1 /\ n = - 2 ^ 31) ->
  Value (Res (calc div)) = uint64 (int64 (div32 n d)) /\
  Value (Mod (calc div)) = uint64 (int64 (rem32 n d)).
Proof.
  intros Hmode n d Hd Hov. unfold calc. rewrite Hmode. simpl (0 =? 0). cbv iota zeta.
  fold n d. apply Z.eqb_neq in Hd. rewrite Hd.
  assert (B : (d =? -1) && (uint32 (Value (Numer div)) =? 2147483648) = false).
  { apply not_true_is_false. intros B. apply andb_true_iff in B as [B1 B2].
    apply Z.eqb_eq in B1, B2. apply Hov. split; [assumption|].
    apply uint32_of_int32. exact B2. }
  rewrite B. split; reflexivity.
Qed.

(** X3. Reading the results of a 32-bit division back as signed values:
    in mode 0, for a non-zero denominator and outside the overflowing pair
    (minimum, -1), the result and remainder registers read as signed 64-bit
    values are numbers q and r in the signed 32-bit range with
    numerator = denominator * q + r, |r| < |denominator|, and r zero or of
    the numerator's sign. *)
Theorem calc_mode0_read_back (div : HwDivisor) :
  Z.land (Value (DivCnt div)) 3 = 0 ->
  let n := int32 (Value (Numer div)) in
  let d := int32 (Value (Denom div)) in
  d <> 0 -> ~ (d = -1 /\ n = - 2 ^ 31) ->
  let q := int64 (Value (Res (calc div))) in
  let r := int64 (Value (Mod (calc div))) in
  - 2 ^ 31 <= q < 2 ^ 31 /\ - 2 ^ 31 <= r < 2 ^ 31 /\
  n = d * q + r /\ Z.abs r < Z.abs d /\ 0 <= r * n.
Proof.
  intros Hmode n d Hd Hov q r.
  destruct (calc_narrow div Hmode Hd Hov) as [ER EM]. fold n d in ER, EM.
  pose proof (int32_range (Value (Numer div))) as Rn. fold n in Rn.
  pose proof (int32_range (Value (Denom div))) as Rd. fold d in Rd.
  assert (Q : - 2 ^ 31 <= Z.quot n d < 2 ^ 31)
    by (apply quot_in_range; try assumption; lia).
  assert (R : - 2 ^ 31 <= Z.rem n d < 2 ^ 31)
    by (apply rem_in_range; try assumption; lia).
  assert (Eq : q = Z.quot n d).
  { unfold q. rewrite ER. unfold div32. rewrite sext_store by assumption.
    rewrite int64_uint64. apply (wrapS_id 64); [lia|].
    change (2 ^ (64 - 1)) with 9223372036854775808.
    change (2 ^ 31) with 2147483648 in Q. lia. }
  assert (Er : r = Z.rem n d).
  { unfold r. rewrite EM. unfold rem32. rewrite sext_store by assumption.
    rewrite int64_uint64. apply (wrapS_id 64); [lia|].
    change (2 ^ (64 - 1)) with 9223372036854775808.
    change (2 ^ 31) with 2147483648 in R. lia. }
  rewrite Eq, Er.
  split; [exact Q|]. split; [exact R|].
  split; [apply Z.quot_rem'|].
  split; [apply Z.rem_bound_abs; exact Hd|].
  apply Z.rem_sign_mul. exact Hd.
Qed.

(** X3, on -7 / 2 (the numerator register holds 0xFFFFFFF9): the
    registers read back as -3 and -1. *)
Lemma calc_mode0_read_back_witness :
  int64 (Value (Res (calc (divOf 0 0xFFFFFFF9 2)))) = -3 /\
  int64 (Value (Mod (calc (divOf 0 0xFFFFFFF9 2)))) = -1 /\
  -7 = 2 * int64 (Value (Res (calc (divOf 0 0xFFFFFFF9 2))))
       + int64 (Value (Mod (calc (divOf 0 0xFFFFFFF9 2)))).
Proof.
  destruct (calc_mode0_read_back (divOf 0 0xFFFFFFF9 2)) as (_ & _ & E & _);
    [reflexivity | vm_compute; discriminate | vm_compute; intros [? _]; discriminate |].
  split; [reflexivity|]. split; [reflexivity|]. exact E.
Defined.

(** X4. In modes 1-3 the values [calc] writes are a function of the
    numerator register and the effective denominator alone: two divisors in
    any of these modes with the same numerator and the same effective
    denominator get the same result and remainder. So modes 1 and 3 behave
    alike, and so does mode 2 whenever the denominator register holds a
    sign-extended 32-bit value. *)
Theorem calc_wide_modes_agree (d1 d2 : HwDivisor) :
  Z.land (Value (DivCnt d1)) 3 <> 0 ->
  Z.land (Value (DivCnt d2)) 3 <> 0 ->
  Value (Numer d1) = Value (Numer d2) ->
  effectiveDenom d1 = effectiveDenom d2 ->
  Value (Res (calc d1)) = Value (Res (calc d2)) /\
  Value (Mod (calc d1)) = Value (Mod (calc d2)).
Proof.
  intros H1 H2 Hn Hd. rewrite (calc_wide d1 H1), (calc_wide d2 H2). cbv zeta.
  rewrite Hn, Hd. split_ifs; split; reflexivity.
Qed.

(** X4, on 20 / 7: mode 1 and mode 3 with the denominator register
    0x100000007 (whose upper half they ignore), and mode 2 with 7. *)
Lemma calc_wide_modes_agree_witness :
  Value (Res (calc (divOf 1 20 0x100000007))) = Value (Res (calc (divOf 3 20 0x100000007))) /\
  Value (Res (calc (divOf 1 20 0x100000007))) = Value (Res (calc (divOf 2 20 7))) /\
  Value (Mod (calc (divOf 3 20 0x100000007))) = Value (Mod (calc (divOf 2 20 7))).
Proof.
  split; [|split].
  - apply (calc_wide_modes_agree (divOf 1 20 0x100000007) (divOf 3 20 0x100000007));
      try reflexivity; vm_compute; discriminate.
  - apply (calc_wide_modes_agree (divOf 1 20 0x100000007) (divOf 2 20 7));
      try reflexivity; vm_compute; discriminate.
  - apply (calc_wide_modes_agree (divOf 3 20 0x100000007) (divOf 2 20 7));
      try reflexivity; vm_compute; discriminate.
Defined.

(** X5. [calc] keeps the registers valid: when the numerator register
    holds an unsigned 64-bit value, so do the result and the remainder
    registers afterwards, in every mode and every branch. *)
Theorem calc_results_in_range (div : HwDivisor) :
  0 <= Value (Numer div) < 2 ^ 64 ->
  0 <= Value (Res (calc div)) < 2 ^ 64 /\
  0 <= Value (Mod (calc div)) < 2 ^ 64.
Proof.
  intros Hn.
  assert (U : forall x, 0 <= uint64 x < 2 ^ 64) by (intros x; apply wrapU_range; lia).
  assert (U32 : forall x, 0 <= uint32 x < 2 ^ 64).
  { intros x. pose proof (wrapU_range 32 x ltac:(lia)) as H. unfold uint32.
    change (2 ^ 32) with 4294967296 in H.
    change (2 ^ 64) with 18446744073709551616. lia. }
  unfold calc, setRes, setMod.
  cbn [DivCnt Numer Denom Res Mod Value set_Value].
  split_ifs; cbn [DivCnt Numer Denom Res Mod Value set_Value];
    split; try apply U; try exact Hn;
    change (2 ^ 64) with 18446744073709551616; lia.
Qed.

(** X5, on the all-ones numerator divided by zero in mode 0. *)
Lemma calc_results_in_range_witness :
  0 <= Value (Res (calc (divOf 0 (2 ^ 64 - 1) 0))) < 2 ^ 64 /\
  0 <= Value (Mod (calc (divOf 0 (2 ^ 64 - 1) 0))) < 2 ^ 64.
Proof.
  apply (calc_results_in_range (divOf 0 (2 ^ 64 - 1) 0)).
  vm_compute. split; [discriminate | reflexivity].
Defined.

End DivisorFacts.

(** ** More on the register binding framework *)
Module HwioFacts.
Import GoInt Hwio.

(** *** [Get] against a lookup in the list of tokens *)

(** The tag written from its tokens: the tokens separated by commas. *)
Fixpoint joinTokens (toks : list string) : string :=
  match toks with
  | [] => ""%string
  | t :: rest =>
      match rest with
      | [] => t
      | _ :: _ => (t ++ "," ++ joinTokens rest)%string
      end
  end.

(** [s] without its prefix [p], when it starts with it. *)
Fixpoint stripPrefix (p s : string) : option string :=
  match p with
  | EmptyString => Some s
  | String a p' =>
      match s with
      | EmptyString => None
      | String b s' => if Ascii.eqb a b then stripPrefix p' s' else None
      end
  end.

(** The value of option [opt] in a list of tokens: the first token that is
    [opt] itself gives "true", the first that is [opt=value] gives the
    value, and the empty string stands for no such token. *)
Fixpoint lookupTokens (opt : string) (toks : list string) : string :=
  match toks with
  | [] => ""%string
  | t :: rest =>
      if String.eqb t opt then "true"%string
      else match stripPrefix (opt ++ "=") t with
           | Some v => v
           | None => lookupTokens opt rest
           end
  end.

(** [strings.Index] finds no comma in [t]. *)
Definition noComma (t : string) : Prop := Index t "," = -1.

Lemma Index_ge s c : -1 <= Index s c.
Proof.
  induction s as [|a s IH]; simpl; [lia|].
  destruct (Ascii.eqb a c); [lia|]. destruct (Index s c <? 0) eqn:E; [lia|].
  apply Z.ltb_ge in E. lia.
Qed.

Lemma noComma_cons a t : noComma (String a t) -> Ascii.eqb a "," = false /\ noComma t.
Proof.
  unfold noComma. simpl. destruct (Ascii.eqb a ","); [discriminate|].
  pose proof (Index_ge t ","). destruct (Index t "," <? 0) eqn:E.
  - apply Z.ltb_lt in E. intros _. split; [reflexivity | lia].
  - apply Z.ltb_ge in E. lia.
Qed.

Lemma Index_app_comma t s :
  noComma t -> Index (t ++ String "," s) "," = len t.
Proof.
  induction t as [|a t IH]; intros H.
  - reflexivity.
  - apply noComma_cons in H as [Ha Ht]. simpl. rewrite Ha, (IH Ht).
    unfold len. simpl String.length.
    destruct (Z.of_nat (String.length t) <? 0) eqn:E; [apply Z.ltb_lt in E; lia | lia].
Qed.

Lemma takeS_app t s : takeS (String.length t) (t ++ s) = t.
Proof. induction t as [|a t IH]; simpl; [destruct s; reflexivity | rewrite IH; reflexivity]. Qed.

Lemma takeS_all t : takeS (String.length t) t = t.
Proof. induction t as [|a t IH]; simpl; [reflexivity | rewrite IH; reflexivity]. Qed.

Lemma dropS_app_sep t c s : dropS (S (String.length t)) (t ++ String c s) = s.
Proof. induction t as [|a t IH]; simpl; [reflexivity | exact IH]. Qed.

Lemma noComma_dropS n t : noComma t -> noComma (dropS n t).
Proof.
  revert t. induction n as [|n IH]; intros [|a t] H; simpl; try exact H.
  apply IH. apply noComma_cons in H. tauto.
Qed.

(** The loop's test for [opt=value], at the level of [nat] indices. *)
Definition eqTest (opt tok : string) : bool :=
  (String.length opt <? String.length tok)%nat
  && String.eqb (takeS (String.length opt) tok) opt
  && match String.get (String.length opt) tok with
     | Some a => Ascii.eqb a "="
     | None => false
     end.

Lemma eqTest_code opt tok :
  (len opt <? len tok) && String.eqb (slice_to tok (len opt)) opt
  && byte_at_is tok (len opt) "=" = eqTest opt tok.
Proof.
  unfold eqTest, slice_to, byte_at_is, len. rewrite Nat2Z.id.
  f_equal. f_equal.
  destruct (String.length opt <? String.length tok)%nat eqn:E.
  - apply Nat.ltb_lt in E. apply Z.ltb_lt. lia.
  - apply Nat.ltb_ge in E. apply Z.ltb_ge. lia.
Qed.

Lemma stripPrefix_eqTest opt tok :
  stripPrefix (opt ++ "=") tok =
    if eqTest opt tok then Some (dropS (S (String.length opt)) tok) else None.
Proof.
  revert tok. induction opt as [|a opt IH]; intros [|b tok]; try reflexivity.
  change ((String a opt ++ "=")%string) with (String a (opt ++ "=")%string).
  cbn [stripPrefix]. rewrite IH. unfold eqTest.
  change (dropS (S (String.length (String a opt))) (String b tok))
    with (dropS (S (String.length opt)) tok).
  cbn [String.length takeS String.get String.eqb].
  change (S (String.length opt) <? S (String.length tok))%nat
    with (String.length opt <? String.length tok)%nat.
  rewrite (Ascii.eqb_sym b a).
  destruct (Ascii.eqb a b); [reflexivity|].
  rewrite andb_false_r. reflexivity.
Qed.

(** One turn of the loop of [Get] on a non-empty tag. *)
Lemma Get_step tag opt :
  String.eqb tag "" = false ->
  Get tag opt =
    let i := Index tag "," in
    let tok := if 0 <=? i then slice_to tag i else tag in
    let next := if 0 <=? i then slice_from tag (i + 1) else ""%string in
    if String.eqb tok opt then "true"%string
    else if eqTest opt tok
         then
           let val := slice_from tok (len opt + 1) in
           let j := Index val "," in
           if 0 <=? j then slice_from val j else val
         else Get next opt.
Proof.
  intros Hne. unfold Get at 1. cbn [Get_loop]. rewrite Hne. cbv zeta.
  rewrite eqTest_code.
  destruct (String.eqb _ opt); [reflexivity|].
  destruct (eqTest opt _); [reflexivity|].
  apply Get_loop_enough. apply eqb_empty_length in Hne.
  destruct (0 <=? Index tag ",") eqn:E.
  - apply Z.leb_le in E. unfold slice_from. rewrite dropS_length. lia.
  - simpl. lia.
Qed.

(** What a token without a comma contributes. *)
Lemma token_value opt t :
  noComma t ->
  (if eqTest opt t
   then
     let val := slice_from t (len opt + 1) in
     let j := Index val "," in
     if 0 <=? j then slice_from val j else val
   else ""%string)
  = match stripPrefix (opt ++ "=") t with Some v => v | None => ""%string end.
Proof.
  intros Ht. rewrite stripPrefix_eqTest. destruct (eqTest opt t); [|reflexivity].
  cbv zeta.
  assert (E : slice_from t (len opt + 1) = dropS (S (String.length opt)) t).
  { unfold slice_from, len. f_equal. lia. }
  rewrite E.
  pose proof (noComma_dropS (S (String.length opt)) t Ht) as H. unfold noComma in H.
  rewrite H. reflexivity.
Qed.

Lemma Get_empty opt : Get "" opt = ""%string.
Proof. reflexivity. Qed.

Lemma Get_single opt t :
  opt <> ""%string -> noComma t ->
  Get t opt = lookupTokens opt [t].
Proof.
  intros Hopt Ht. cbn [lookupTokens].
  destruct (String.eqb t "") eqn:E.
  - apply String.eqb_eq in E. subst t. rewrite Get_empty.
    destruct (String.eqb "" opt) eqn:E2.
    + apply String.eqb_eq in E2. congruence.
    + destruct opt; [congruence | reflexivity].
  - rewrite (Get_step t opt E). unfold noComma in Ht. rewrite Ht.
    cbv zeta. change (0 <=? -1) with false. cbv iota.
    destruct (String.eqb t opt); [reflexivity|].
    rewrite <- (token_value opt t Ht).
    destruct (eqTest opt t); [reflexivity | apply Get_empty].
Qed.

Lemma Get_cons opt t s :
  noComma t ->
  Get (t ++ String "," s) opt =
    if String.eqb t opt then "true"%string
    else match stripPrefix (opt ++ "=") t with
         | Some v => v
         | None => Get s opt
         end.
Proof.
  intros Ht.
  assert (E : String.eqb (t ++ String "," s) "" = false) by (destruct t; reflexivity).
  rewrite (Get_step _ opt E). rewrite (Index_app_comma t s Ht). cbv zeta.
  assert (P : (0 <=? len t) = true) by (apply Z.leb_le; unfold len; lia).
  rewrite P.
  assert (E1 : slice_to (t ++ String "," s) (len t) = t).
  { unfold slice_to, len. rewrite Nat2Z.id. apply takeS_app. }
  assert (E2 : slice_from (t ++ String "," s) (len t + 1) = s).
  { unfold slice_from, len.
    replace (Z.to_nat (Z.of_nat (String.length t) + 1)) with (S (String.length t)) by lia.
    apply dropS_app_sep. }
  rewrite E1, E2.
  destruct (String.eqb t opt); [reflexivity|].
  pose proof (token_value opt t Ht) as V.
  rewrite stripPrefix_eqTest in V. rewrite stripPrefix_eqTest.
  destruct (eqTest opt t); [exact V | reflexivity].
Qed.

(** [Get] on a tag written from comma-free tokens. *)
Lemma Get_joinTokens (opt : string) (toks : list string) :
  opt <> ""%string ->
  Forall noComma toks ->
  Get (joinTokens toks) opt = lookupTokens opt toks.
Proof.
  intros Hopt Hall. induction Hall as [|t rest Ht Hrest IH].
  - reflexivity.
  - destruct rest as [|t2 rest'].
    + apply Get_single; assumption.
    + change (joinTokens (t :: t2 :: rest'))
        with (t ++ String "," (joinTokens (t2 :: rest')))%string.
      rewrite (Get_cons opt t _ Ht), IH. reflexivity.
Qed.

(** The tokens of a tag: the pieces between its commas. *)
Fixpoint splitComma (s : string) : list string :=
  match s with
  | EmptyString => [""%string]
  | String a s' =>
      if Ascii.eqb a "," then ""%string :: splitComma s'
      else match splitComma s' with
           | t :: r => String a t :: r
           | [] => [String a ""]
           end
  end.

Lemma splitComma_nonempty s : splitComma s <> [].
Proof.
  destruct s as [|a s]; simpl; [discriminate|].
  destruct (Ascii.eqb a ","); [discriminate|].
  destruct (splitComma s); discriminate.
Qed.

Lemma join_splitComma s : joinTokens (splitComma s) = s.
Proof.
  induction s as [|a s IH]; [reflexivity|]. simpl splitComma.
  pose proof (splitComma_nonempty s) as N.
  destruct (Ascii.eqb a ",") eqn:E.
  - apply Ascii.eqb_eq in E. subst a.
    destruct (splitComma s) as [|t r]; [congruence|].
    change (joinTokens ("" :: t :: r)%string) with (String "," (joinTokens (t :: r))).
    rewrite IH. reflexivity.
  - destruct (splitComma s) as [|t r]; [congruence|].
    rewrite <- IH. destruct r; reflexivity.
Qed.

Lemma splitComma_noComma s : Forall noComma (splitComma s).
Proof.
  induction s as [|a s IH]; simpl.
  - repeat constructor.
  - destruct (Ascii.eqb a ",") eqn:E.
    + constructor; [reflexivity | exact IH].
    + destruct (splitComma s) as [|t r]; [repeat constructor; unfold noComma; simpl; rewrite E; reflexivity|].
      inversion IH as [|? ? Ht Hr]; subst. constructor; [|exact Hr].
      unfold noComma in *. simpl. rewrite E, Ht. reflexivity.
Qed.

(** X6. [Get] is a lookup in the list of the tag's tokens (the pieces
    between its commas). For every tag and every non-empty option name,
    [Get] returns "true" when the first token that is the option or starts
    with [option=] is the option itself, the text after [=] when it is
    [option=text], and the empty string when there is no such token. A
    token that merely starts with the option's name, or an option that is a
    prefix of another, does not match. *)
Theorem Get_lookupTokens (tag opt : string) :
  opt <> ""%string ->
  Get tag opt = lookupTokens opt (splitComma tag).
Proof.
  intros Hopt. rewrite <- (join_splitComma tag) at 1.
  apply Get_joinTokens; [exact Hopt | apply splitComma_noComma].
Qed.

(** X6, on the control register's tag and on look-alike tokens. *)
Lemma Get_lookupTokens_witness :
  Get "offset=0x00,rwmask=0x3,wcb,rcb" "rwmask" = "0x3"%string /\
  Get "offset=0x00,rwmask=0x3,wcb,rcb" "rcb" = "true"%string /\
  Get "offset=0x00,rwmask=0x3,wcb,rcb" "reset" = ""%string /\
  Get "rcbx=1,xrcb,rc,,rcb=" "rcb" = ""%string.
Proof.
  split; [|split; [|split]].
  - apply (Get_lookupTokens "offset=0x00,rwmask=0x3,wcb,rcb" "rwmask"). discriminate.
  - apply (Get_lookupTokens "offset=0x00,rwmask=0x3,wcb,rcb" "rcb"). discriminate.
  - apply (Get_lookupTokens "offset=0x00,rwmask=0x3,wcb,rcb" "reset"). discriminate.
  - apply (Get_lookupTokens "rcbx=1,xrcb,rc,,rcb=" "rcb"). discriminate.
Defined.

(** *** [InitRegs]: errors, what is left alone, running it again *)


Lemma withReg_withReg f a b : withReg (withReg f a) b = withReg f b.
Proof. destruct f as [n t v]. unfold withReg. simpl. destruct v; reflexivity. Qed.

Lemma regBits_withReg f r : regBits (Val (withReg f r)) = regBits (Val f).
Proof. unfold withReg. simpl. destruct (Val f); reflexivity. Qed.

(** [MustInitRegs]: [None] is the panic. *)
Definition MustInitRegs (ParseUint : string -> Z -> Z -> option Z)
    (ToUpper : string -> string) (data : Struct) : option Struct :=
  match InitRegs ParseUint ToUpper data with
  | (data', None) => Some data'
  | (_, Some _) => None
  end.

Section InitRegsMore.
Variable ParseUint : string -> Z -> Z -> option Z.
Variable ToUpper : string -> string.

(** The four steps of a tagged register field, in the order of the source. *)
Definition steps (methods : list string) (name tag : string) (nbits : Z) : RegStep :=
  andThen (stepRwmask ParseUint nbits tag)
    (andThen (stepReset ParseUint nbits tag)
       (andThen (stepRcb ToUpper methods name tag)
          (stepWcb ToUpper methods name tag))).

Ltac case_steps :=
  repeat match goal with
         | |- context [String.eqb ?a ?b] => destruct (String.eqb a b)
         | |- context [ParseUint ?a ?b ?c] => destruct (ParseUint a b c)
         | |- context [MethodByName_IsValid ?a ?b] => destruct (MethodByName_IsValid a b)
         end.

(** Each step writes a value that does not depend on the register it
    finds, so running the steps on their own result changes nothing. *)
Lemma steps_idem methods name tag nbits r :
  steps methods name tag nbits (steps methods name tag nbits r).1
  = steps methods name tag nbits r.
Proof.
  unfold steps, andThen, stepRwmask, stepReset, stepRcb, stepWcb.
  destruct r. case_steps; reflexivity.
Qed.

Lemma initField_steps methods f nbits r :
  Tag f <> ""%string -> regBits (Val f) = Some nbits -> fieldReg f = Some r ->
  initField ParseUint ToUpper methods f =
    (withReg f (steps methods (Name f) (Tag f) nbits r).1,
     (steps methods (Name f) (Tag f) nbits r).2).
Proof. intros. unfold steps. apply initField_tagged; assumption. Qed.

Lemma initField_untagged methods f :
  Tag f = ""%string -> initField ParseUint ToUpper methods f = (f, None).
Proof. intros H. unfold initField. rewrite H. reflexivity. Qed.

Lemma initField_other methods f ty :
  Tag f <> ""%string -> Val f = VOther ty ->
  initField ParseUint ToUpper methods f = (f, Some (UnsupportedRegtype ty)).
Proof.
  intros Ht Hv. unfold initField, fieldReg. apply String.eqb_neq in Ht.
  rewrite Ht, Hv. reflexivity.
Qed.

Lemma initField_idem methods f :
  initField ParseUint ToUpper methods (initField ParseUint ToUpper methods f).1
  = initField ParseUint ToUpper methods f.
Proof.
  destruct (String.eqb (Tag f) "") eqn:Et.
  - apply String.eqb_eq in Et. rewrite (initField_untagged methods f Et). simpl.
    apply initField_untagged. exact Et.
  - apply String.eqb_neq in Et.
    destruct (Val f) as [r|r|r|ty] eqn:Ev.
    1-3: (assert (Hr : fieldReg f = Some r) by (unfold fieldReg; rewrite Ev; reflexivity);
          assert (Hb : exists nbits, regBits (Val f) = Some nbits)
            by (rewrite Ev; simpl; eauto);
          destruct Hb as [nbits Hb];
          rewrite (initField_steps methods f nbits r Et Hb Hr); cbn [fst];
          rewrite (initField_steps methods (withReg f _) nbits
                     (steps methods (Name f) (Tag f) nbits r).1);
          [ cbn [withReg Name Tag]; rewrite withReg_withReg, steps_idem; reflexivity
          | exact Et
          | rewrite regBits_withReg; exact Hb
          | eapply fieldReg_withReg; exact Hr ]).
    rewrite (initField_other methods f ty Et Ev). simpl.
    apply initField_other; assumption.
Qed.

Lemma initFields_idem methods fs :
  initFields ParseUint ToUpper methods (initFields ParseUint ToUpper methods fs).1
  = initFields ParseUint ToUpper methods fs.
Proof.
  induction fs as [|f fs IH]; [reflexivity|]. simpl.
  pose proof (initField_idem methods f) as I.
  destruct (initField ParseUint ToUpper methods f) as [f' [e|]]; simpl in *.
  - rewrite I. reflexivity.
  - destruct (initFields ParseUint ToUpper methods fs) as [fs' e']. simpl in *.
    rewrite I, IH. reflexivity.
Qed.

(** X7. Running [InitRegs] again on what it left changes nothing and
    gives the same outcome: the same registers and, if the first run
    failed, the same error. *)
Theorem InitRegs_idempotent (data : Struct) :
  InitRegs ParseUint ToUpper (InitRegs ParseUint ToUpper data).1
  = InitRegs ParseUint ToUpper data.
Proof.
  unfold InitRegs. pose proof (initFields_idem (Methods data) (Fields data)) as I.
  destruct (initFields ParseUint ToUpper (Methods data) (Fields data)) as [fs e].
  simpl in *. rewrite I. reflexivity.
Qed.

Lemma initField_shape methods f :
  let f' := (initField ParseUint ToUpper methods f).1 in
  Name f' = Name f /\ Tag f' = Tag f /\ regBits (Val f') = regBits (Val f).
Proof.
  unfold initField. destruct (String.eqb (Tag f) ""); [simpl; auto|].
  destruct (regBits (Val f)) as [nbits|] eqn:Hb; [|simpl; rewrite Hb; auto].
  destruct (fieldReg f) as [r|]; [|simpl; rewrite Hb; auto].
  destruct (andThen _ _ r) as [r' e]. cbn [fst]. rewrite regBits_withReg. auto.
Qed.

(** X8. [InitRegs] never adds, drops, renames, retags or retypes a field,
    and leaves the method set alone: field by field, the result has the
    same name, the same tag and the same register width as the input,
    whether or not an error is returned. *)
Theorem InitRegs_keeps_shape (data : Struct) :
  Methods (InitRegs ParseUint ToUpper data).1 = Methods data /\
  Forall2 (fun f f' => Name f' = Name f /\ Tag f' = Tag f /\
                       regBits (Val f') = regBits (Val f))
          (Fields data) (Fields (InitRegs ParseUint ToUpper data).1).
Proof.
  unfold InitRegs.
  assert (S : forall fs, Forall2 (fun f f' => Name f' = Name f /\ Tag f' = Tag f /\
                                              regBits (Val f') = regBits (Val f))
                           fs (initFields ParseUint ToUpper (Methods data) fs).1).
  { induction fs as [|f fs IH]; simpl; [constructor|].
    pose proof (initField_shape (Methods data) f) as Sh.
    destruct (initField ParseUint ToUpper (Methods data) f) as [f' [e|]]; simpl in *.
    - constructor; [exact Sh|]. apply Forall2_same_length_lookup_2; [reflexivity|].
      intros i x y Hx Hy. rewrite Hx in Hy. inversion Hy. auto.
    - destruct (initFields ParseUint ToUpper (Methods data) fs) as [fs' e'].
      simpl in *. constructor; assumption. }
  specialize (S (Fields data)).
  destruct (initFields ParseUint ToUpper (Methods data) (Fields data)) as [fs e].
  simpl in *. split; [reflexivity | exact S].
Qed.

(** X9. When [InitRegs] returns an error, it is the error of the first
    field whose initialisation fails: the fields before it are initialised
    without error, the failing field is as its own steps left it, and every
    field after it is exactly as it was. *)
Theorem InitRegs_error_stops (data : Struct) (e : InitError) :
  (InitRegs ParseUint ToUpper data).2 = Some e ->
  exists pre f post,
    Fields data = pre ++ f :: post /\
    (initFields ParseUint ToUpper (Methods data) pre).2 = None /\
    (initField ParseUint ToUpper (Methods data) f).2 = Some e /\
    Fields (InitRegs ParseUint ToUpper data).1 =
      (initFields ParseUint ToUpper (Methods data) pre).1
      ++ (initField ParseUint ToUpper (Methods data) f).1 :: post.
Proof.
  unfold InitRegs.
  assert (S : forall fs, (initFields ParseUint ToUpper (Methods data) fs).2 = Some e ->
    exists pre f post,
      fs = pre ++ f :: post /\
      (initFields ParseUint ToUpper (Methods data) pre).2 = None /\
      (initField ParseUint ToUpper (Methods data) f).2 = Some e /\
      (initFields ParseUint ToUpper (Methods data) fs).1 =
        (initFields ParseUint ToUpper (Methods data) pre).1
        ++ (initField ParseUint ToUpper (Methods data) f).1 :: post).
  { induction fs as [|f fs IH]; simpl; [discriminate|].
    destruct (initField ParseUint ToUpper (Methods data) f) as [f' [e0|]] eqn:Ef; simpl.
    - intros H. exists [], f, fs. rewrite Ef. simpl. auto.
    - destruct (initFields ParseUint ToUpper (Methods data) fs) as [fs' e'] eqn:Efs.
      simpl in *. intros H. destruct (IH H) as (pre & g & post & E1 & E2 & E3 & E4).
      exists (f :: pre), g, post. simpl. rewrite Ef.
      destruct (initFields ParseUint ToUpper (Methods data) pre) as [pre' ep].
      simpl in *. subst. auto. }
  intros H.
  destruct (initFields ParseUint ToUpper (Methods data) (Fields data)) as [fs e'] eqn:E.
  simpl in *. specialize (S (Fields data)). rewrite E in S. simpl in S.
  exact (S H).
Qed.

End InitRegsMore.

(** A peripheral whose second register names a method that is missing. *)
Definition brokenData : Struct :=
  {| Fields :=
       [ mkField "Ctl" "offset=0x0,rwmask=0xFF,reset=0x80" (VReg16 (mkReg 0 0 None None));
         mkField "Cmd" "offset=0x2,reset=0x1,wcb" (VReg16 (mkReg 0 0 None None));
         mkField "Out" "offset=0x4,reset=0x7" (VReg32 (mkReg 0 0 None None)) ];
     Methods := ["ReadCTL"%string] |}.

(** X9, on [brokenData]: the error names [WriteCMD]; [Ctl] is
    initialised, [Cmd] has its reset value but no callback, and [Out] still
    holds 0 although its tag asks for 7. *)
Lemma InitRegs_error_stops_witness :
  (InitRegs GoLib.ParseUint GoLib.ToUpper brokenData).2 = Some (CannotFindMethod "WriteCMD") /\
  exists pre f post,
    Fields brokenData = pre ++ f :: post /\
    (initFields GoLib.ParseUint GoLib.ToUpper (Methods brokenData) pre).2 = None /\
    (initField GoLib.ParseUint GoLib.ToUpper (Methods brokenData) f).2
      = Some (CannotFindMethod "WriteCMD") /\
    Fields (InitRegs GoLib.ParseUint GoLib.ToUpper brokenData).1 =
      (initFields GoLib.ParseUint GoLib.ToUpper (Methods brokenData) pre).1
      ++ (initField GoLib.ParseUint GoLib.ToUpper (Methods brokenData) f).1 :: post.
Proof.
  split; [reflexivity|].
  apply (InitRegs_error_stops GoLib.ParseUint GoLib.ToUpper brokenData
           (CannotFindMethod "WriteCMD")).
  reflexivity.
Defined.

Section InitRegsErrors.
Variable ParseUint : string -> Z -> Z -> option Z.
Variable ToUpper : string -> string.

(** X10. A field without an [hwio] tag is invisible to [InitRegs]: it is
    never touched, whatever its type, in whatever position, and the error
    returned (or success) is the same as for the struct without it. *)
Theorem InitRegs_skips_untagged (methods : list string)
    (pre post : list StructField) (f : StructField) :
  Tag f = ""%string ->
  let out := InitRegs ParseUint ToUpper (mkStruct (pre ++ f :: post) methods) in
  let out' := InitRegs ParseUint ToUpper (mkStruct (pre ++ post) methods) in
  Fields out.1 !! length pre = Some f /\
  out.2 = out'.2 /\
  Fields out.1 = take (length pre) (Fields out'.1) ++ f :: drop (length pre) (Fields out'.1).
Proof.
  intros Ht. unfold InitRegs. cbn [Fields Methods].
  assert (S : initFields ParseUint ToUpper methods (pre ++ f :: post) =
              let r := initFields ParseUint ToUpper methods (pre ++ post) in
              (take (length pre) r.1 ++ f :: drop (length pre) r.1, r.2)).
  { induction pre as [|p pre IH]; cbn [app initFields length].
    - rewrite (initField_untagged ParseUint ToUpper methods f Ht).
      destruct (initFields ParseUint ToUpper methods post); reflexivity.
    - destruct (initField ParseUint ToUpper methods p) as [p' [e|]].
      + cbn [fst snd take drop]. rewrite take_app_length, drop_app_length. reflexivity.
      + rewrite IH. cbv zeta.
        destruct (initFields ParseUint ToUpper methods (pre ++ post)) as [r e].
        reflexivity. }
  rewrite S. cbv zeta.
  destruct (initFields ParseUint ToUpper methods (pre ++ post)) as [r e] eqn:E.
  cbn [fst snd Fields].
  split; [|split; reflexivity].
  assert (L : length (take (length pre) r) = length pre).
  { rewrite length_take.
    pose proof (initFields_length ParseUint ToUpper methods (pre ++ post)) as L.
    rewrite E in L. simpl in L. rewrite length_app in L. lia. }
  rewrite <- L at 1. apply list_lookup_middle. reflexivity.
Qed.





End InitRegsErrors.


Definition plainReg : Reg := mkReg 0 0 None None.

(** X10, on a struct with a mutex between two registers. *)
Lemma InitRegs_skips_untagged_witness :
  let lock := mkField "mu" "" (VOther "sync.Mutex") in
  let out := InitRegs GoLib.ParseUint GoLib.ToUpper
               (mkStruct [ mkField "A" "offset=0x0,reset=0x5" (VReg16 plainReg); lock;
                           mkField "B" "offset=0x2,reset=0x6" (VReg16 plainReg) ] []) in
  Fields out.1 !! 1%nat = Some lock /\ out.2 = None.
Proof.
  intros lock out.
  destruct (InitRegs_skips_untagged GoLib.ParseUint GoLib.ToUpper []
              [mkField "A" "offset=0x0,reset=0x5" (VReg16 plainReg)]
              [mkField "B" "offset=0x2,reset=0x6" (VReg16 plainReg)]
              lock eq_refl) as (H1 & H2 & _).
  split; [exact H1 | exact H2].
Defined.





End HwioFacts.

(** ** Bank and offset extraction ([bankGetRegs]) *)
Module HwioBank.
Import GoInt Hwio.

(** [bankRegInfo]; the pointer to the register is kept as the index of the
    field in the struct. *)
Record bankRegInfo : Type := mkInfo {
  regPtr : nat;
  offset : Z;
}.

(** The error [bankGetRegs] hands back from [strconv]: which literal was
    rejected. *)
Inductive BankError : Type :=
  | BadOffset (s : string)
  | BadBank (s : string).

Section Bank.
(** [strconv.ParseInt] and [strconv.ParseUint] are parameters, as in
    [InitRegs]. *)
Variable ParseInt : string -> Z -> Z -> option Z.
Variable ParseUint : string -> Z -> Z -> option Z.

(** The bank a tag declares: 0 without a [bank] option. *)
Definition declaredBank (tag : string) : option Z :=
  let sbank := Get tag "bank" in
  if String.eqb sbank "" then Some 0 else ParseUint sbank 0 32.

(** The loop over the fields from field [i] on, with the slice [regs]
    built so far. *)
Fixpoint bankLoop (bankNum : Z) (i : nat) (fs : list StructField)
    (regs : list bankRegInfo) : BankError + list bankRegInfo :=
  match fs with
  | [] => inr regs
  | f :: rest =>
      if String.eqb (Tag f) "" then bankLoop bankNum (S i) rest regs
      else
        match ParseInt (Get (Tag f) "offset") 0 32 with
        | None => inl (BadOffset (Get (Tag f) "offset"))
        | Some off =>
            (* Check if this register declares a bank *)
            match declaredBank (Tag f) with
            | None => inl (BadBank (Get (Tag f) "bank"))
            | Some bank =>
                (* If the bank doesn't match the requested one, skip this field *)
                if negb (bank =? bankNum) then bankLoop bankNum (S i) rest regs
                else bankLoop bankNum (S i) rest
                       (regs ++ [ {| regPtr := i; offset := uint32 off |} ])
            end
        end
  end.

Definition bankGetRegs (data : Struct) (bankNum : Z) : BankError + list bankRegInfo :=
  bankLoop bankNum 0 (Fields data) [].

(** The slice built so far is only added to. *)
Lemma bankLoop_acc bankNum i fs regs :
  bankLoop bankNum i fs regs =
    match bankLoop bankNum i fs [] with
    | inl e => inl e
    | inr l => inr (regs ++ l)
    end.
Proof.
  revert i regs. induction fs as [|f fs IH]; intros i regs; simpl.
  - rewrite app_nil_r. reflexivity.
  - destruct (String.eqb (Tag f) ""); [apply IH|].
    destruct (ParseInt _ 0 32) as [off|]; [|reflexivity].
    destruct (declaredBank (Tag f)) as [bank|]; [|reflexivity].
    destruct (negb (bank =? bankNum)); [apply IH|].
    rewrite (IH (S i) (regs ++ _)), (IH (S i) [_]).
    destruct (bankLoop bankNum (S i) fs []); [reflexivity|].
    rewrite <- app_assoc. reflexivity.
Qed.

(** What a field contributes to the table of bank [bankNum]. *)
Definition listed (bankNum : Z) (f : StructField) (off : Z) : Prop :=
  Tag f <> ""%string /\
  (exists o, ParseInt (Get (Tag f) "offset") 0 32 = Some o /\ off = uint32 o) /\
  declaredBank (Tag f) = Some bankNum.

Lemma bankLoop_spec bankNum fs : forall i l,
  bankLoop bankNum i fs [] = inr l ->
  (forall info, In info l <->
     exists j f, fs !! j = Some f /\ regPtr info = (i + j)%nat /\
                 listed bankNum f (offset info)) /\
  StronglySorted (fun a b => (regPtr a < regPtr b)%nat) l.
Proof.
  induction fs as [|f fs IH]; intros i l; simpl.
  - intros H. inversion H. split; [|constructor].
    intros info. split; [intros []|]. intros (j & g & Hj & _). destruct j; discriminate.
  - destruct (String.eqb (Tag f) "") eqn:Et.
    { intros H. destruct (IH (S i) l H) as [M Hs]. split; [|exact Hs].
      intros info. rewrite M. split.
      - intros (j & g & Hj & Hp & Hl). exists (S j), g. split; [exact Hj|]. split; [lia|exact Hl].
      - intros (j & g & Hj & Hp & Hl). destruct j as [|j].
        + simpl in Hj. inversion Hj; subst g. destruct Hl as [Hl _].
          apply String.eqb_eq in Et. congruence.
        + exists j, g. split; [exact Hj|]. split; [lia|exact Hl]. }
    destruct (ParseInt (Get (Tag f) "offset") 0 32) as [off|] eqn:Eo; [|discriminate].
    destruct (declaredBank (Tag f)) as [bank|] eqn:Eb; [|discriminate].
    destruct (bank =? bankNum) eqn:Ebn; simpl negb; cbv iota.
    + apply Z.eqb_eq in Ebn. subst bank.
      rewrite bankLoop_acc. destruct (bankLoop bankNum (S i) fs []) as [e|l'] eqn:El; [discriminate|].
      intros H. inversion H; subst l. clear H.
      destruct (IH (S i) l' El) as [M Hs]. simpl app. split.
      * intros info. simpl In. rewrite M. split.
        -- intros [<- | (j & g & Hj & Hp & Hl)].
           ++ exists 0%nat, f. simpl. split; [reflexivity|]. split; [lia|].
              split; [apply String.eqb_neq; exact Et|]. split; [eauto | exact Eb].
           ++ exists (S j), g. split; [exact Hj|]. split; [lia|exact Hl].
        -- intros (j & g & Hj & Hp & Hl). destruct j as [|j].
           ++ left. simpl in Hj. inversion Hj; subst g.
              destruct Hl as (_ & (o & Ho & Hoff) & _). rewrite Eo in Ho. inversion Ho; subst o.
              destruct info as [p o']. simpl in *. f_equal; [lia | congruence].
           ++ right. exists j, g. split; [exact Hj|]. split; [lia|exact Hl].
      * constructor; [exact Hs|]. apply Forall_forall. intros info Hin.
        apply list_elem_of_In in Hin. apply M in Hin. destruct Hin as (j & g & _ & Hp & _). simpl. lia.
    + intros H. destruct (IH (S i) l H) as [M Hs]. split; [|exact Hs].
      intros info. rewrite M. split.
      * intros (j & g & Hj & Hp & Hl). exists (S j), g. split; [exact Hj|]. split; [lia|exact Hl].
      * intros (j & g & Hj & Hp & Hl). destruct j as [|j].
        -- simpl in Hj. inversion Hj; subst g. destruct Hl as (_ & _ & Hb).
           rewrite Eb in Hb. inversion Hb. apply Z.eqb_neq in Ebn. congruence.
        -- exists j, g. split; [exact Hj|]. split; [lia|exact Hl].
Qed.

(** X15. When [bankGetRegs] succeeds for a bank, its table lists exactly
    the tagged fields that declare this bank (bank 0 when the tag has no
    [bank] option), each once, in declaration order, with its offset as a
    32-bit unsigned value; untagged fields and fields of other banks are
    not listed. *)
Theorem bankGetRegs_lists_the_bank (data : Struct) (bankNum : Z)
    (regs : list bankRegInfo) :
  bankGetRegs data bankNum = inr regs ->
  (forall info, In info regs <->
     exists f, Fields data !! regPtr info = Some f /\ listed bankNum f (offset info)) /\
  StronglySorted (fun a b => (regPtr a < regPtr b)%nat) regs.
Proof.
  intros H. destruct (bankLoop_spec bankNum (Fields data) 0 regs H) as [M Hs].
  split; [|exact Hs]. intros info. rewrite M. split.
  - intros (j & f & Hj & Hp & Hl). exists f. simpl in Hp. rewrite Hp. auto.
  - intros (f & Hf & Hl). exists (regPtr info), f. auto.
Qed.



End Bank.

(** A reference [strconv.ParseInt]: an optional sign before an unsigned
    literal, checked against the signed range. *)
Definition refParseInt (s : string) (base bitSize : Z) : option Z :=
  let '(neg, body) := match s with
                      | String "-" r => (true, r)
                      | String "+" r => (false, r)
                      | _ => (false, s)
                      end in
  match GoLib.ParseUint body base 64 with
  | Some v =>
      let v := if neg : bool then - v else v in
      if (- 2 ^ (bitSize - 1) <=? v) && (v <? 2 ^ (bitSize - 1)) then Some v else None
  | None => None
  end.

(** A peripheral with registers in banks 0 and 1 and an untagged field. *)
Definition bankedFields : list StructField :=
  [ mkField "A" "offset=0x00" (VReg16 (mkReg 0 0 None None));
    mkField "B" "offset=0x04,bank=1" (VReg32 (mkReg 0 0 None None));
    mkField "mu" "" (VOther "sync.Mutex");
    mkField "C" "offset=0x10,bank=0" (VReg64 (mkReg 0 0 None None)) ].

(** X15, on [bankedFields]: bank 0 holds fields 0 and 3, bank 1 field 1. *)
Lemma bankGetRegs_lists_the_bank_witness :
  bankGetRegs refParseInt GoLib.ParseUint (mkStruct bankedFields []) 0
    = inr [mkInfo 0 0; mkInfo 3 0x10] /\
  (forall info, In info [mkInfo 0 0; mkInfo 3 0x10] <->
     exists f, bankedFields !! regPtr info = Some f /\
               listed refParseInt GoLib.ParseUint 0 f (offset info)).
Proof.
  split; [reflexivity|].
  apply (bankGetRegs_lists_the_bank refParseInt GoLib.ParseUint
           (mkStruct bankedFields []) 0 [mkInfo 0 0; mkInfo 3 0x10] eq_refl).
Defined.


End HwioBank.

(** ** Constructing the divisor ([NewHwDivisor]) *)
Module DivisorInit.
Import GoInt Hwio Divisor.

(** The register of field [i] after initialisation. *)
Definition regAt (fs : list StructField) (i : nat) : Reg :=
  match fs !! i with
  | Some f => match fieldReg f with Some r => r | None => zeroReg end
  | None => zeroReg
  end.

(** [NewHwDivisor]: a zeroed struct run through [MustInitRegs]; [None] is
    the panic of [MustInitRegs]. *)
Definition NewHwDivisor (ParseUint : string -> Z -> Z -> option Z)
    (ToUpper : string -> string) : option HwDivisor :=
  match HwioFacts.MustInitRegs ParseUint ToUpper
          {| Fields := fieldsOf newDiv; Methods := methodsOf |} with
  | Some data =>
      Some {| DivCnt := regAt (Fields data) 0; Numer := regAt (Fields data) 1;
              Denom := regAt (Fields data) 2; Res := regAt (Fields data) 3;
              Mod := regAt (Fields data) 4 |}
  | None => None
  end.

(** X17. [NewHwDivisor] does not panic and wires the divisor as its tags
    say, for any [strconv.ParseUint] that reads "0x3" as 3 and any
    [strings.ToUpper] that maps "DivCnt" to "DIVCNT": the control register
    gets the read-only mask 0xFFFC (only the two mode bits are writable)
    and the callbacks [ReadDIVCNT] and [WriteDIVCNT], numerator and
    denominator get [WriteIN] and are fully writable, result and remainder
    get no callback, and every value starts at zero. *)
Theorem NewHwDivisor_wiring (ParseUint : string -> Z -> Z -> option Z)
    (ToUpper : string -> string) :
  ParseUint "0x3"%string 0 16 = Some 3 ->
  ToUpper "DivCnt"%string = "DIVCNT"%string ->
  NewHwDivisor ParseUint ToUpper =
    Some {| DivCnt := mkReg 0 0xFFFC (Some "ReadDIVCNT"%string) (Some "WriteDIVCNT"%string);
            Numer := mkReg 0 0 None (Some "WriteIN"%string);
            Denom := mkReg 0 0 None (Some "WriteIN"%string);
            Res := mkReg 0 0 None None;
            Mod := mkReg 0 0 None None |}.
Proof.
  intros HP HU. unfold NewHwDivisor, HwioFacts.MustInitRegs, InitRegs.
  cbn [Fields Methods fieldsOf initFields].
  assert (E0 : initField ParseUint ToUpper methodsOf
                 (mkField "DivCnt" "offset=0x00,rwmask=0x3,wcb,rcb" (VReg16 (DivCnt newDiv)))
               = (mkField "DivCnt" "offset=0x00,rwmask=0x3,wcb,rcb"
                    (VReg16 (mkReg 0 0xFFFC (Some "ReadDIVCNT"%string)
                               (Some "WriteDIVCNT"%string))), None)).
  { unfold initField, andThen, stepRwmask, stepReset, stepRcb, stepWcb.
    cbn [Tag Name Val regBits fieldReg].
    change (Get "offset=0x00,rwmask=0x3,wcb,rcb" "rwmask") with "0x3"%string.
    change (Get "offset=0x00,rwmask=0x3,wcb,rcb" "reset") with ""%string.
    change (Get "offset=0x00,rwmask=0x3,wcb,rcb" "rcb") with "true"%string.
    change (Get "offset=0x00,rwmask=0x3,wcb,rcb" "wcb") with "true"%string.
    rewrite HP, HU. reflexivity. }
  assert (EN : initField ParseUint ToUpper methodsOf
                 (mkField "Numer" "offset=0x10,wcb=WriteIN" (VReg64 (Numer newDiv)))
               = (mkField "Numer" "offset=0x10,wcb=WriteIN"
                    (VReg64 (mkReg 0 0 None (Some "WriteIN"%string))), None)) by reflexivity.
  assert (ED : initField ParseUint ToUpper methodsOf
                 (mkField "Denom" "offset=0x18,wcb=WriteIN" (VReg64 (Denom newDiv)))
               = (mkField "Denom" "offset=0x18,wcb=WriteIN"
                    (VReg64 (mkReg 0 0 None (Some "WriteIN"%string))), None)) by reflexivity.
  assert (ER : initField ParseUint ToUpper methodsOf
                 (mkField "Res" "offset=0x20" (VReg64 (Res newDiv)))
               = (mkField "Res" "offset=0x20" (VReg64 (mkReg 0 0 None None)), None))
    by reflexivity.
  assert (EM : initField ParseUint ToUpper methodsOf
                 (mkField "Mod" "offset=0x28" (VReg64 (Mod newDiv)))
               = (mkField "Mod" "offset=0x28" (VReg64 (mkReg 0 0 None None)), None))
    by reflexivity.
  rewrite E0, EN, ED, ER, EM. reflexivity.
Qed.

(** X17, with the reference library functions. *)
Lemma NewHwDivisor_wiring_witness :
  exists div, NewHwDivisor GoLib.ParseUint GoLib.ToUpper = Some div /\
              RoMask (DivCnt div) = 0xFFFC /\
              ReadCb (DivCnt div) = Some "ReadDIVCNT"%string /\
              WriteCb (Numer div) = Some "WriteIN"%string /\
              ReadCb (Res div) = None.
Proof.
  eexists. split.
  - apply (NewHwDivisor_wiring GoLib.ParseUint GoLib.ToUpper); reflexivity.
  - repeat split.
Defined.

End DivisorInit.

(** ** More on the touchscreen controller: the transfer routine *)
Module TouchscreenFacts.
Import GoInt Touchscreen.

Definition isByte (b : Z) : Prop := 0 <= b < 256.

(** The channel a command byte selects. *)
Definition channel (cmd : Z) : Z := Z.land (Z.shiftr cmd 4) 7.

Lemma two_step_ind (P : list Z -> Prop) :
  P [] -> (forall x, P [x]) -> (forall x y l, P l -> P (x :: y :: l)) ->
  forall l, P l.
Proof.
  intros H0 H1 H2.
  assert (A : forall l, P l /\ forall x, P (x :: l)).
  { induction l as [|y l [IH1 IH2]]; [split; [exact H0 | exact H1]|].
    split; [apply IH2|]. intros x. apply H2. exact IH1. }
  intros l. apply A.
Qed.

Lemma uint8_byte x : isByte (uint8 x).
Proof. apply (wrapU_range 8). lia. Qed.

Lemma frame_bytes cmd output :
  isByte (frame cmd output).1 /\ isByte (frame cmd output).2.
Proof.
  unfold frame. destruct (negb (negb _)); cbn [fst snd]; split; apply uint8_byte.
Qed.

Section Routine.
Variable Ram : Z -> Z.
Variable ff : HwTouchScreen.

(** [convert], one turn unfolded. *)
Lemma convert_eq cmd ins :
  convert Ram ff cmd ins =
    match sample Ram ff cmd with
    | None => None
    | Some output =>
        match ins with
        | [] => Some []
        | [_] => Some [(frame cmd output).1]
        | _ :: cmd' :: rest =>
            if negb (Z.land cmd' 0x80 =? 0)
            then match convert Ram ff cmd' rest with
                 | Some out => Some ((frame cmd output).1 :: (frame cmd output).2 :: out)
                 | None => None
                 end
            else Some ((frame cmd output).1 :: (frame cmd output).2
                         :: map (fun _ => 0) rest)
        end
    end.
Proof.
  destruct ins as [|x [|y rest]]; simpl; destruct (sample Ram ff cmd);
    try reflexivity; destruct (frame cmd z); reflexivity.
Qed.

Lemma convert_replies ins : forall cmd out,
  convert Ram ff cmd ins = Some out ->
  length out = length ins /\ Forall isByte out.
Proof.
  induction ins as [| x | x y rest IH] using two_step_ind; intros cmd out;
    rewrite convert_eq; destruct (sample Ram ff cmd) as [output|]; try discriminate;
    pose proof (frame_bytes cmd output) as [B1 B2].
  - intros H. inversion H. split; [reflexivity | constructor].
  - intros H. inversion H. split; [reflexivity | constructor; [exact B1 | constructor]].
  - destruct (negb (Z.land y 128 =? 0)).
    + destruct (convert Ram ff y rest) as [out'|] eqn:E; [|discriminate].
      intros H. inversion H. destruct (IH y out' E) as [L F].
      split; [simpl; lia | constructor; [exact B1 | constructor; [exact B2 | exact F]]].
    + intros H. inversion H. split; [simpl; rewrite length_map; reflexivity|].
      constructor; [exact B1|]. constructor; [exact B2|].
      apply Forall_forall. intros b Hb. apply list_elem_of_In, in_map_iff in Hb.
      destruct Hb as (? & <- & _). unfold isByte. lia.
Qed.

(** X18. The byte exchange is one for one: when the routine runs to the
    end of the bytes offered (no panic), it has sent exactly one reply per
    byte received, and every reply is a byte. *)
Theorem transfer_one_reply_per_byte (ins out : list Z) :
  transfer Ram ff ins = Some out ->
  length out = length ins /\ Forall isByte out.
Proof.
  revert out. induction ins as [|cmd rest IH]; intros out; simpl.
  - intros H. inversion H. split; [reflexivity | constructor].
  - destruct (negb (Z.land cmd 128 =? 0)).
    + destruct (convert Ram ff cmd rest) as [out'|] eqn:E; [|discriminate].
      intros H. inversion H. destruct (convert_replies rest cmd out' E) as [L F].
      split; [simpl; lia | constructor; [unfold isByte; lia | exact F]].
    + destruct (transfer Ram ff rest) as [out'|] eqn:E; [|discriminate].
      intros H. inversion H. destruct (IH out' eq_refl) as [L F].
      split; [simpl; lia | constructor; [unfold isByte; lia | exact F]].
Qed.

(** X19. The idle scan: while no byte offered has its top bit set, every
    reply is 0 and the routine never looks at the pen or the calibration
    data, so it cannot fail, whatever their state. *)
Theorem transfer_idle (ins : list Z) :
  Forall (fun b => Z.land b 0x80 = 0) ins ->
  transfer Ram ff ins = Some (map (fun _ => 0) ins).
Proof.
  induction 1 as [|b rest Hb _ IH]; simpl; [reflexivity|].
  rewrite Hb, IH. reflexivity.
Qed.

Lemma uint8_diff_zero a b :
  isByte a -> isByte b -> (uint8 (b - a) =? 0) = (a =? b).
Proof.
  unfold isByte, uint8, wrapU. change (2 ^ 8) with 256. intros Ha Hb.
  destruct (a =? b) eqn:E.
  - apply Z.eqb_eq in E. subst. rewrite Z.sub_diag. reflexivity.
  - apply Z.eqb_neq in E. apply Z.eqb_neq. Z.div_mod_to_equations. lia.
Qed.

(** X20. The sample computation fails (the integer division panics) in
    exactly one situation: the pen is down, the command selects channel 1
    or channel 5, and the two screen calibration bytes of that axis are
    equal. With the pen up, on any other channel, or with distinct
    calibration bytes it always yields a sample. *)
Theorem sample_fails_iff (cmd : Z) :
  sample Ram ff cmd = None <->
  penDown ff = true /\
  ((channel cmd = 1 /\ Ram8 Ram (0x3FFC80 + 0x5D) = Ram8 Ram (0x3FFC80 + 0x63)) \/
   (channel cmd = 5 /\ Ram8 Ram (0x3FFC80 + 0x5C) = Ram8 Ram (0x3FFC80 + 0x62))).
Proof.
  unfold sample, channel. set (ch := Z.land (Z.shiftr cmd 4) 7).
  pose proof (uint8_diff_zero (Ram8 Ram (0x3FFC80 + 0x5D)) (Ram8 Ram (0x3FFC80 + 0x63))
                (uint8_byte _) (uint8_byte _)) as EY.
  pose proof (uint8_diff_zero (Ram8 Ram (0x3FFC80 + 0x5C)) (Ram8 Ram (0x3FFC80 + 0x62))
                (uint8_byte _) (uint8_byte _)) as EX.
  destruct (ch =? 0) eqn:E0.
  { apply Z.eqb_eq in E0. split; [discriminate|]. intros (_ & [[H _] | [H _]]); lia. }
  destruct (ch =? 1) eqn:E1.
  { apply Z.eqb_eq in E1. destruct (penDown ff).
    - cbv zeta. rewrite EY.
      destruct (Ram8 Ram (0x3FFC80 + 0x5D) =? Ram8 Ram (0x3FFC80 + 0x63)) eqn:Q.
      + apply Z.eqb_eq in Q. split; [intros _; auto|reflexivity].
      + apply Z.eqb_neq in Q. split; [discriminate|].
        intros (_ & [[_ H] | [H _]]); [congruence | lia].
    - split; [discriminate|]. intros [H _]. discriminate. }
  destruct (ch =? 5) eqn:E5.
  { apply Z.eqb_eq in E5. destruct (penDown ff).
    - cbv zeta. rewrite EX.
      destruct (Ram8 Ram (0x3FFC80 + 0x5C) =? Ram8 Ram (0x3FFC80 + 0x62)) eqn:Q.
      + apply Z.eqb_eq in Q. split; [intros _; auto|reflexivity].
      + apply Z.eqb_neq in Q. split; [discriminate|].
        intros (_ & [[H _] | [_ H]]); [lia | congruence].
    - split; [discriminate|]. intros [H _]. discriminate. }
  apply Z.eqb_neq in E1, E5. split; [discriminate|].
  intros (_ & [[H _] | [H _]]); congruence.
Qed.

Lemma sample_pen_up_some cmd : penDown ff = false -> exists v, sample Ram ff cmd = Some v.
Proof.
  intros Hup. destruct (sample Ram ff cmd) as [v|] eqn:E; [eauto|].
  apply sample_fails_iff in E. destruct E as [E _]. congruence.
Qed.

Lemma convert_pen_up ins : penDown ff = false ->
  forall cmd, exists out, convert Ram ff cmd ins = Some out.
Proof.
  intros Hup.
  induction ins as [| x | x y rest IH] using two_step_ind; intros cmd;
    rewrite convert_eq; destruct (sample_pen_up_some cmd Hup) as [v ->]; eauto.
  destruct (negb (Z.land y 128 =? 0)); [|eauto].
  destruct (IH y) as [out ->]. eauto.
Qed.

(** X21. With the pen up the routine never fails: for every sequence of
    bytes offered, with any commands chained in any order, it answers every
    byte. *)
Theorem transfer_pen_up_total (ins : list Z) :
  penDown ff = false -> exists out, transfer Ram ff ins = Some out.
Proof.
  intros Hup. induction ins as [|cmd rest [out IH]]; simpl; [eauto|].
  destruct (negb (Z.land cmd 128 =? 0)).
  - destruct (convert_pen_up rest Hup cmd) as [out' ->]. eauto.
  - rewrite IH. eauto.
Qed.

End Routine.

(** X22. The framing loses nothing: for a 12-bit sample, in 12-bit mode
    (bit 3 of the command clear) the first byte has its top bit clear and
    carries the upper seven bits, the second carries the lower five bits in
    its top five bits, so that 32 * first + second / 8 is the sample; in
    8-bit mode the two bytes carry the upper eight bits of the sample as
    seven bits and one bit, so that 2 * first + second / 128 is the sample
    divided by 16. *)
Theorem frame_round_trip (cmd output : Z) :
  0 <= output < 2 ^ 12 ->
  let b1 := (frame cmd output).1 in
  let b2 := (frame cmd output).2 in
  0 <= b1 < 128 /\
  if Z.land (Z.shiftr cmd 3) 1 =? 0
  then 32 * b1 + b2 / 8 = output /\ b2 mod 8 = 0
  else 2 * b1 + b2 / 128 = output / 16 /\ b2 mod 128 = 0.
Proof.
  intros H b1 b2. unfold b1, b2, frame.
  change (2 ^ 12) with 4096 in H.
  destruct (Z.land (Z.shiftr cmd 3) 1 =? 0); cbn [negb fst snd];
    unfold uint8, uint16, wrapU;
    rewrite ?Z.shiftr_div_pow2, ?Z.shiftl_mul_pow2 by lia;
    change (2 ^ 5) with 32; change (2 ^ 3) with 8; change (2 ^ 4) with 16;
    change (2 ^ 1) with 2; change (2 ^ 7) with 128; change (2 ^ 8) with 256;
    change (2 ^ 16) with 65536;
    Z.div_mod_to_equations; lia.
Qed.

(** X22, on the sample 0xABC in both modes. *)
Lemma frame_round_trip_witness :
  frame 0x90 0xABC = (0x55, 0xE0) /\ 32 * 0x55 + 0xE0 / 8 = 0xABC /\
  frame 0x98 0xABC = (0x55, 0x80) /\ 2 * 0x55 + 0x80 / 128 = 0xABC / 16.
Proof.
  pose proof (frame_round_trip 0x90 0xABC) as H12.
  pose proof (frame_round_trip 0x98 0xABC) as H8.
  destruct H12 as (_ & E12 & _); [vm_compute; split; [discriminate | reflexivity]|].
  destruct H8 as (_ & E8 & _); [vm_compute; split; [discriminate | reflexivity]|].
  split; [reflexivity|]. split; [exact E12|]. split; [reflexivity | exact E8].
Defined.

(** X18, on a pen-up transfer with an idle byte, a command for channel 1
    and a chained command for channel 5. *)
Lemma transfer_one_reply_per_byte_witness :
  transfer (fun _ => 0) NewHwTouchScreen [0x00; 0x90; 0x00; 0xD0; 0x00; 0x00]
    = Some [0; 0; 0x7F; 0xF8; 0; 0] /\
  length [0; 0; 0x7F; 0xF8; 0; 0] = length [0x00; 0x90; 0x00; 0xD0; 0x00; 0x00] /\
  Forall isByte [0; 0; 0x7F; 0xF8; 0; 0].
Proof.
  split; [reflexivity|].
  apply (transfer_one_reply_per_byte (fun _ => 0) NewHwTouchScreen
           [0x00; 0x90; 0x00; 0xD0; 0x00; 0x00] [0; 0; 0x7F; 0xF8; 0; 0]).
  reflexivity.
Defined.

(** X19, on three bytes without a start bit, with the pen down on a RAM
    whose calibration data would make a conversion fail. *)
Lemma transfer_idle_witness :
  transfer (fun _ => 0) (SetPen true 10 10 NewHwTouchScreen) [0x00; 0x7F; 0x10]
  = Some [0; 0; 0].
Proof.
  apply (transfer_idle (fun _ => 0) (SetPen true 10 10 NewHwTouchScreen) [0x00; 0x7F; 0x10]).
  repeat constructor.
Defined.

(** X21, on two chained commands with the pen up. *)
Lemma transfer_pen_up_total_witness :
  exists out, transfer (fun _ => 0) NewHwTouchScreen [0x90; 0x00; 0xD0; 0x00; 0x00] = Some out.
Proof.
  apply (transfer_pen_up_total (fun _ => 0) NewHwTouchScreen [0x90; 0x00; 0xD0; 0x00; 0x00]).
  reflexivity.
Defined.

(** X20, on a RAM of zeros (equal calibration bytes) with the pen down:
    channel 1 fails, channel 0 does not. *)
Lemma sample_fails_iff_witness :
  sample (fun _ => 0) (SetPen true 10 10 NewHwTouchScreen) 0x90 = None /\
  sample (fun _ => 0) (SetPen true 10 10 NewHwTouchScreen) 0x80 <> None.
Proof.
  split.
  - apply (sample_fails_iff (fun _ => 0) (SetPen true 10 10 NewHwTouchScreen) 0x90).
    split; [reflexivity|]. left. split; reflexivity.
  - intros H.
    apply (sample_fails_iff (fun _ => 0) (SetPen true 10 10 NewHwTouchScreen) 0x80) in H.
    destruct H as (_ & [[H _] | [H _]]); vm_compute in H; discriminate.
Defined.

(** *** Interpolation between the calibration points *)

Lemma LittleEndian_Uint16_range Ram off : 0 <= LittleEndian_Uint16 Ram off < 65536.
Proof.
  unfold LittleEndian_Uint16.
  pose proof (uint8_byte (Ram off)) as A. pose proof (uint8_byte (Ram (off + 1))) as B.
  unfold isByte in A, B. fold (Ram8 Ram off) in A. fold (Ram8 Ram (off + 1)) in B.
  rewrite Z.shiftl_mul_pow2 by lia. change (2 ^ 8) with 256.
  pose proof (Z.add_lor_land (Ram8 Ram off) (Ram8 Ram (off + 1) * 256)) as E.
  assert (0 <= Z.land (Ram8 Ram off) (Ram8 Ram (off + 1) * 256)) by (apply Z.land_nonneg; lia).
  assert (0 <= Z.lor (Ram8 Ram off) (Ram8 Ram (off + 1) * 256)) by (apply Z.lor_nonneg; lia).
  lia.
Qed.

(** The arithmetic of one axis, for a pen between the calibration points. *)
Lemma interpolation p s1 s2 a1 a2 :
  0 <= a1 <= a2 -> a2 < 65536 -> 0 <= s1 < s2 -> s2 < 256 ->
  s1 - 1 <= p <= s2 - 1 ->
  let v := uint16 (int64 (div64 (int64 (int64 (int64 (p - s1) + 1) * uint16 (a2 - a1)))
                                 (uint8 (s2 - s1))
                          + a1)) in
  v = a1 + (p - s1 + 1) * (a2 - a1) / (s2 - s1) /\ a1 <= v <= a2.
Proof.
  intros Ha Ha2 Hs Hs2 Hp v. unfold v. clear v.
  assert (I : forall x, - 2 ^ 40 <= x < 2 ^ 40 -> int64 x = x).
  { intros x Hx. apply (wrapS_id 64); [lia|].
    change (2 ^ (64 - 1)) with 9223372036854775808.
    change (2 ^ 40) with 1099511627776 in Hx. lia. }
  change (2 ^ 40) with 1099511627776 in I.
  assert (U16 : uint16 (a2 - a1) = a2 - a1) by (apply wrapU_id; simpl; lia).
  assert (U8 : uint8 (s2 - s1) = s2 - s1) by (apply wrapU_id; simpl; lia).
  rewrite U16, U8.
  rewrite (I (p - s1)) by lia. rewrite (I (p - s1 + 1)) by lia.
  set (t := p - s1 + 1). set (da := a2 - a1). set (ds := s2 - s1).
  assert (Ht : 0 <= t <= ds) by (unfold t, ds; lia).
  assert (Hda : 0 <= da < 65536) by (unfold da; lia).
  assert (Hds : 0 < ds < 256) by (unfold ds; lia).
  assert (Hprod : 0 <= t * da <= 255 * 65536) by nia.
  rewrite (I (t * da)) by lia.
  unfold div64. rewrite Z.quot_div_nonneg by lia.
  assert (Q0 : 0 <= t * da / ds) by (apply Z.div_pos; lia).
  assert (Q1 : t * da / ds <= da) by (apply Z.div_le_upper_bound; nia).
  rewrite (I (t * da / ds)) by lia.
  rewrite (I (t * da / ds + a1)) by lia.
  assert (U : uint16 (t * da / ds + a1) = t * da / ds + a1)
    by (apply wrapU_id; change (2 ^ 16) with 65536; unfold da in *; lia).
  rewrite U. lia.
Qed.

(** X23. Linear interpolation between the calibration points. With the pen
    down and, on the selected axis, calibration data in order (first screen
    byte below the second, first ADC value not above the second), for a pen
    coordinate from (first screen byte - 1) to (second screen byte - 1) the
    sample is the first ADC value plus (pen - first screen byte + 1) times
    the ADC span divided by the screen span, rounded down; it lies between
    the two ADC values, equals the first at the lower end and the second at
    the upper end. Channel 1 uses penY and the Y calibration data, channel
    5 uses penX and the X calibration data. *)
Theorem sample_interpolates (Ram : Z -> Z) (ff : HwTouchScreen) (cmd : Z) :
  penDown ff = true ->
  (channel cmd = 1 ->
     let adc1 := LittleEndian_Uint16 Ram (0x3FFC80 + 0x5A) in
     let scr1 := Ram8 Ram (0x3FFC80 + 0x5D) in
     let adc2 := LittleEndian_Uint16 Ram (0x3FFC80 + 0x60) in
     let scr2 := Ram8 Ram (0x3FFC80 + 0x63) in
     adc1 <= adc2 -> scr1 < scr2 -> scr1 - 1 <= penY ff <= scr2 - 1 ->
     exists v, sample Ram ff cmd = Some v /\
               v = adc1 + (penY ff - scr1 + 1) * (adc2 - adc1) / (scr2 - scr1) /\
               adc1 <= v <= adc2 /\
               (penY ff = scr1 - 1 -> v = adc1) /\ (penY ff = scr2 - 1 -> v = adc2))
  /\
  (channel cmd = 5 ->
     let adc1 := LittleEndian_Uint16 Ram (0x3FFC80 + 0x58) in
     let scr1 := Ram8 Ram (0x3FFC80 + 0x5C) in
     let adc2 := LittleEndian_Uint16 Ram (0x3FFC80 + 0x5E) in
     let scr2 := Ram8 Ram (0x3FFC80 + 0x62) in
     adc1 <= adc2 -> scr1 < scr2 -> scr1 - 1 <= penX ff <= scr2 - 1 ->
     exists v, sample Ram ff cmd = Some v /\
               v = adc1 + (penX ff - scr1 + 1) * (adc2 - adc1) / (scr2 - scr1) /\
               adc1 <= v <= adc2 /\
               (penX ff = scr1 - 1 -> v = adc1) /\ (penX ff = scr2 - 1 -> v = adc2)).
Proof.
  intros Hdown.
  assert (Ends : forall p s1 s2 a1 a2 v,
             s1 < s2 -> v = a1 + (p - s1 + 1) * (a2 - a1) / (s2 - s1) ->
             (p = s1 - 1 -> v = a1) /\ (p = s2 - 1 -> v = a2)).
  { intros p s1 s2 a1 a2 v Hs ->. split; intros ->.
    - replace (s1 - 1 - s1 + 1) with 0 by lia. rewrite Z.mul_0_l, Z.div_0_l by lia. lia.
    - replace (s2 - 1 - s1 + 1) with (s2 - s1) by lia.
      rewrite Z.mul_comm, Z.div_mul by lia. lia. }
  split; intros Hch adc1 scr1 adc2 scr2 Hadc Hscr Hpen;
    pose proof (LittleEndian_Uint16_range Ram (0x3FFC80 + 0x5A)) as R1;
    pose proof (LittleEndian_Uint16_range Ram (0x3FFC80 + 0x60)) as R2;
    pose proof (LittleEndian_Uint16_range Ram (0x3FFC80 + 0x58)) as R3;
    pose proof (LittleEndian_Uint16_range Ram (0x3FFC80 + 0x5E)) as R4;
    pose proof (uint8_byte (Ram (0x3FFC80 + 0x5D))) as B1;
    pose proof (uint8_byte (Ram (0x3FFC80 + 0x63))) as B2;
    pose proof (uint8_byte (Ram (0x3FFC80 + 0x5C))) as B3;
    pose proof (uint8_byte (Ram (0x3FFC80 + 0x62))) as B4;
    unfold isByte in B1, B2, B3, B4;
    unfold sample; unfold channel in Hch; rewrite Hch, Hdown; cbn [Z.eqb Pos.eqb]; cbv zeta;
    fold adc1 adc2 scr1 scr2.
  - fold (Ram8 Ram (0x3FFC80 + 0x5D)) in B1. fold (Ram8 Ram (0x3FFC80 + 0x63)) in B2.
    fold scr1 in B1. fold scr2 in B2. fold adc1 in R1. fold adc2 in R2.
    assert (Hz : (uint8 (scr2 - scr1) =? 0) = false).
    { apply Z.eqb_neq. unfold uint8. rewrite wrapU_id by (change (2 ^ 8) with 256; lia). lia. }
    rewrite Hz.
    destruct (interpolation (penY ff) scr1 scr2 adc1 adc2) as [E Bd]; try lia.
    eexists. split; [reflexivity|]. split; [exact E|]. split; [exact Bd|].
    apply (Ends (penY ff) scr1 scr2 adc1 adc2); [exact Hscr | exact E].
  - fold (Ram8 Ram (0x3FFC80 + 0x5C)) in B3. fold (Ram8 Ram (0x3FFC80 + 0x62)) in B4.
    fold scr1 in B3. fold scr2 in B4. fold adc1 in R3. fold adc2 in R4.
    assert (Hz : (uint8 (scr2 - scr1) =? 0) = false).
    { apply Z.eqb_neq. unfold uint8. rewrite wrapU_id by (change (2 ^ 8) with 256; lia). lia. }
    rewrite Hz.
    destruct (interpolation (penX ff) scr1 scr2 adc1 adc2) as [E Bd]; try lia.
    eexists. split; [reflexivity|]. split; [exact E|]. split; [exact Bd|].
    apply (Ends (penX ff) scr1 scr2 adc1 adc2); [exact Hscr | exact E].
Qed.

(** A RAM whose Y calibration maps screen 10..200 to ADC 10..200 (the unit
    mapping) and whose X calibration maps screen 0..255 to ADC 0x100..0xF00. *)
Definition calibratedRam (off : Z) : Z :=
  if off =? 0x3FFC80 + 0x5A then 10 else
  if off =? 0x3FFC80 + 0x5D then 10 else
  if off =? 0x3FFC80 + 0x60 then 200 else
  if off =? 0x3FFC80 + 0x63 then 200 else
  if off =? 0x3FFC80 + 0x59 then 0x01 else
  if off =? 0x3FFC80 + 0x5F then 0x0F else
  if off =? 0x3FFC80 + 0x62 then 255 else 0.

(** X23, on [calibratedRam]: with the unit mapping the pen at y = 100
    gives the sample 101, one more than the coordinate; on the X axis the
    pen at x = 254 gives the upper ADC value 0xF00. *)
Lemma sample_interpolates_witness :
  (exists v, sample calibratedRam (SetPen true 254 100 NewHwTouchScreen) 0x90 = Some v /\
             v = 101) /\
  (exists v, sample calibratedRam (SetPen true 254 100 NewHwTouchScreen) 0xD0 = Some v /\
             v = 0xF00).
Proof.
  split.
  - destruct (sample_interpolates calibratedRam (SetPen true 254 100 NewHwTouchScreen) 0x90
                eq_refl) as [HY _].
    destruct HY as (v & E & F & _);
      [reflexivity | vm_compute; discriminate | reflexivity
      | vm_compute; split; discriminate |].
    exists v. split; [exact E | exact F].
  - destruct (sample_interpolates calibratedRam (SetPen true 254 100 NewHwTouchScreen) 0xD0
                eq_refl) as [_ HX].
    destruct HX as (v & E & _ & _ & _ & F);
      [reflexivity | vm_compute; discriminate | reflexivity
      | vm_compute; split; discriminate |].
    exists v. split; [exact E | apply F; reflexivity].
Defined.

End TouchscreenFacts.

(** ** More on the ARM core: all exceptions, reset, hooks, lines *)
Module ArmFacts.
Import GoInt Arm.

(** The switch of [RegSpsr], as a function of the mode. *)
Definition spsrOfMode (mode : Z) : option (fin 5) :=
  if (mode =? CpuModeUser) || (mode =? CpuModeSystem) then None
  else if mode =? CpuModeFiq then Some 0%fin
  else if mode =? CpuModeSupervisor then Some 1%fin
  else if mode =? CpuModeAbort then Some 2%fin
  else if mode =? CpuModeIrq then Some 3%fin
  else if mode =? CpuModeUndefined then Some 4%fin
  else None.

(** The mode that owns an entry of [SpsrBank]. *)
Definition modeOfSpsr (i : fin 5) : Z :=
  nth (fin_to_nat i)
      [CpuModeFiq; CpuModeSupervisor; CpuModeAbort; CpuModeIrq; CpuModeUndefined] 0.

Lemma spsrOfMode_inv mode i : spsrOfMode mode = Some i -> mode = modeOfSpsr i.
Proof.
  unfold spsrOfMode.
  destruct (_ || _); [discriminate|].
  repeat match goal with
         | |- context [?m =? ?c] =>
             destruct (Z.eqb_spec m c);
             [intros H; injection H as H; subst; reflexivity|]
         end.
  discriminate.
Qed.

Lemma spsrOfMode_exc exc : exists idx, spsrOfMode (at_exc excMode exc) = Some idx.
Proof. destruct exc; eexists; reflexivity. Qed.

Lemma excMode_range exc : 0 <= at_exc excMode exc < 32.
Proof. destruct exc; vm_compute; split; (discriminate || reflexivity). Qed.

Section Facts.
Context {regCpsr Cp15 : Type}.
Variable ops : @CpuOps regCpsr Cp15.

Definition set_pc (v : Z) (c : @Cpu regCpsr Cp15) : @Cpu regCpsr Cp15 :=
  {| Regs := Regs c; Cpsr := Cpsr c; Clock := Clock c; UsrBank := UsrBank c;
     FiqBank := FiqBank c; SvcBank := SvcBank c; AbtBank := AbtBank c;
     IrqBank := IrqBank c; UndBank := UndBank c; SpsrBank := SpsrBank c;
     UsrBank2 := UsrBank2 c; FiqBank2 := FiqBank2 c; arch := arch c; pc := v;
     cp15 := cp15 c; lines := lines c; prevpc := prevpc c;
     memCycles := memCycles c; targetCycles := targetCycles c;
     tightExit := tightExit c; DebugTrace := DebugTrace c |}.

Definition set_prevpc (v : Z) (c : @Cpu regCpsr Cp15) : @Cpu regCpsr Cp15 :=
  {| Regs := Regs c; Cpsr := Cpsr c; Clock := Clock c; UsrBank := UsrBank c;
     FiqBank := FiqBank c; SvcBank := SvcBank c; AbtBank := AbtBank c;
     IrqBank := IrqBank c; UndBank := UndBank c; SpsrBank := SpsrBank c;
     UsrBank2 := UsrBank2 c; FiqBank2 := FiqBank2 c; arch := arch c; pc := pc c;
     cp15 := cp15 c; lines := lines c; prevpc := v;
     memCycles := memCycles c; targetCycles := targetCycles c;
     tightExit := tightExit c; DebugTrace := DebugTrace c |}.

(** [Reset] *)
Definition Reset (swiHle : gmap Z (@Hle regCpsr Cp15)) (cpu : @Cpu regCpsr Cp15)
  : option (@Cpu regCpsr Cp15) :=
  let cpu := set_pc 0 cpu in
  let cpu := set_prevpc 0 cpu in
  let cpu := set_Clock 0 cpu in
  Exception ops swiHle ExceptionReset cpu.

(** The call number [Exception] looks up for a SWI. *)
Definition swiNumber (cpu : @Cpu regCpsr Cp15) : Z :=
  Z.land (Read16 ops cpu (uint32 (pc cpu - 2))) 0xFF.

Lemma RegSpsr_spsrOfMode (cpu : @Cpu regCpsr Cp15) :
  RegSpsr ops cpu = spsrOfMode (cpsr_GetMode ops (Cpsr cpu)).
Proof. reflexivity. Qed.

(** The hook [Exception] finds: the table's entry at the call number for a
    SWI, none for any other exception. *)
Definition hookFor (swiHle : gmap Z (@Hle regCpsr Cp15)) (exc : ExceptionT)
    (cpu : @Cpu regCpsr Cp15) : option (@Hle regCpsr Cp15) :=
  if is_Swi exc then swiHle !! swiNumber cpu else None.

(** [Exception] with the hook it finds made explicit. *)
Lemma Exception_by_hook swiHle exc cpu :
  Exception ops swiHle exc cpu =
    match hookFor swiHle exc cpu with
    | Some hle =>
        let '(cpu, delay) := hle cpu in
        Some (set_Clock (int64 (Clock cpu + int64 (delay + 3))) cpu)
    | None => Exception ops ∅ exc cpu
    end.
Proof.
  unfold Exception, hookFor, swiNumber. destruct exc; cbn [is_Swi]; try reflexivity.
  assert (N : (if cpsr_T ops (Cpsr cpu)
               then uint32 (pc cpu + at_exc excPcOffsetThumb ExceptionSwi)
               else uint32 (pc cpu + at_exc excPcOffsetArm ExceptionSwi)) = uint32 (pc cpu)).
  { destruct (cpsr_T _ _); f_equal; change (at_exc _ _) with 0; lia. }
  rewrite N, uint32_sub_uint32.
  destruct (swiHle !! Z.land (Read16 ops cpu (uint32 (pc cpu - 2))) 255); reflexivity.
Qed.

(** The real exception path, for every kind of exception. *)
Lemma Exception_real_path swiHle exc cpu :
  CpuContract ops ->
  hookFor swiHle exc cpu = None ->
  exists cpu' idx,
    Exception ops swiHle exc cpu = Some cpu' /\
    spsrOfMode (at_exc excMode exc) = Some idx /\
    cpsr_GetMode ops (Cpsr cpu') = at_exc excMode exc /\
    RegSpsr ops cpu' = Some idx /\
    SpsrBank cpu' !!! idx = cpsr_Uint32 ops (Cpsr cpu) /\
    (forall i : fin 5, i <> idx -> SpsrBank cpu' !!! i = SpsrBank cpu !!! i) /\
    Regs cpu' !!! 14%fin =
      uint32 (pc cpu + if cpsr_T ops (Cpsr cpu)
                       then at_exc excPcOffsetThumb exc
                       else at_exc excPcOffsetArm exc).
Proof.
  intros C Hk. rewrite Exception_by_hook, Hk.
  assert (H0 : hookFor ∅ exc cpu = None).
  { unfold hookFor. destruct (is_Swi exc); [apply lookup_empty | reflexivity]. }
  destruct (spsrOfMode_exc exc) as [idx Hidx].
  unfold Exception. fold (swiNumber cpu).
  set (pc' := if cpsr_T ops (Cpsr cpu) then _ else _).
  assert (Hpc : pc' = uint32 (pc cpu + if cpsr_T ops (Cpsr cpu)
                                       then at_exc excPcOffsetThumb exc
                                       else at_exc excPcOffsetArm exc))
    by (unfold pc'; destruct (cpsr_T _ _); reflexivity).
  assert (Hh : (if is_Swi exc
                then (∅ : gmap Z (@Hle regCpsr Cp15))
                       !! Z.land (Read16 ops cpu (uint32 (pc' - 2))) 255
                else None) = None).
  { destruct (is_Swi exc); [apply lookup_empty | reflexivity]. }
  match goal with
  | |- context [match ?x with Some _ => _ | None => _ end] =>
      replace x with (@None (@Hle regCpsr Cp15)) by (symmetry; exact Hh)
  end.
  set (c2 := cpsr_SetI ops true (cpsr_SetMode ops (at_exc excMode exc) (cpsr_SetT ops false cpu))).
  set (c3 := if is_Reset_or_Fiq exc then cpsr_SetF ops true c2 else c2).
  assert (M2 : cpsr_GetMode ops (Cpsr c2) = at_exc excMode exc).
  { unfold c2. rewrite (SetI_GetMode _ C). apply (SetMode_GetMode _ C). apply excMode_range. }
  assert (S2 : SpsrBank c2 = SpsrBank cpu).
  { unfold c2. rewrite (SetI_SpsrBank _ C), (SetMode_SpsrBank _ C). apply (SetT_SpsrBank _ C). }
  assert (M3 : cpsr_GetMode ops (Cpsr c3) = at_exc excMode exc).
  { unfold c3. destruct (is_Reset_or_Fiq exc); [rewrite (SetF_GetMode _ C)|]; exact M2. }
  assert (S3 : SpsrBank c3 = SpsrBank cpu).
  { unfold c3. destruct (is_Reset_or_Fiq exc); [rewrite (SetF_SpsrBank _ C)|]; exact S2. }
  assert (R3 : RegSpsr ops c3 = Some idx) by (rewrite RegSpsr_spsrOfMode, M3; exact Hidx).
  rewrite R3. cbn [mbind option_bind].
  eexists _, idx. split; [reflexivity|]. split; [exact Hidx|].
  split; [|split; [|split; [|split]]].
  - cbn [set_Clock Cpsr]. rewrite (branch_Cpsr _ C). exact M3.
  - rewrite RegSpsr_spsrOfMode. cbn [set_Clock Cpsr]. rewrite (branch_Cpsr _ C).
    cbn [set_Regs set_SpsrBank Cpsr]. rewrite M3. exact Hidx.
  - cbn [set_Clock SpsrBank]. rewrite (branch_SpsrBank _ C).
    cbn [set_Regs set_SpsrBank SpsrBank]. apply vlookup_insert.
  - intros i Hi. cbn [set_Clock SpsrBank]. rewrite (branch_SpsrBank _ C).
    cbn [set_Regs set_SpsrBank SpsrBank].
    rewrite vlookup_insert_ne by congruence. rewrite S3. reflexivity.
  - cbn [set_Clock Regs]. rewrite (branch_R14 _ C). cbn [set_Regs Regs].
    rewrite !vlookup_insert_ne by discriminate. rewrite vlookup_insert. exact Hpc.
Qed.

Lemma SetLine_true_lines (cpu : @Cpu regCpsr Cp15) line :
  lines (SetLine line true cpu) =
    if negb (Z.land line (Z.lor LineFiq LineIrq) =? 0)
    then Z.ldiff (Z.lor (lines cpu) line) LineHalt
    else Z.lor (lines cpu) line.
Proof.
  unfold SetLine.
  destruct (negb (Z.lxor (lines cpu) line =? 0)), (negb (Z.land line _ =? 0)); reflexivity.
Qed.

End Facts.

(** X24. Every kind of exception that no hook intercepts (any exception
    but a SWI, and a SWI whose call number has no hook) takes the real
    exception path and succeeds, on any core meeting the contract: the core
    ends in the mode [excMode] gives for the exception, that mode has a
    saved-status entry (the trap of [RegSpsr] is never hit from
    [Exception]), the entry holds the status value from before the
    exception while the four other entries keep theirs, and R14 is the
    program counter plus the exception's offset for the width the core was
    in, as a 32-bit word. *)
Theorem Exception_every_kind {regCpsr Cp15 : Type} (ops : @CpuOps regCpsr Cp15)
    (swiHle : gmap Z (@Hle regCpsr Cp15)) (exc : ExceptionT) (cpu : @Cpu regCpsr Cp15) :
  CpuContract ops ->
  hookFor ops swiHle exc cpu = None ->
  exists cpu' idx,
    Exception ops swiHle exc cpu = Some cpu' /\
    spsrOfMode (at_exc excMode exc) = Some idx /\
    cpsr_GetMode ops (Cpsr cpu') = at_exc excMode exc /\
    RegSpsr ops cpu' = Some idx /\
    SpsrBank cpu' !!! idx = cpsr_Uint32 ops (Cpsr cpu) /\
    (forall i : fin 5, i <> idx -> SpsrBank cpu' !!! i = SpsrBank cpu !!! i) /\
    Regs cpu' !!! 14%fin =
      uint32 (pc cpu + if cpsr_T ops (Cpsr cpu)
                       then at_exc excPcOffsetThumb exc
                       else at_exc excPcOffsetArm exc).
Proof. apply Exception_real_path. Qed.

(** X24, on the reference core in user mode and Thumb width at 0x1000: a
    data abort enters abort mode (0x17) with R14 = 0x1006 and the old status
    value 0x30 in entry 2; a SWI with call number 6, while only call 5 is
    hooked, enters supervisor mode with R14 = 0x1000. *)
Lemma Exception_every_kind_witness :
  (exists cpu',
     Exception (Ref.ops (fun _ => 0)) ∅ ExceptionDataAbort
       (Ref.cpuAt 0x1000 true CpuModeUser 0) = Some cpu' /\
     Ref.st_mode (Cpsr cpu') = CpuModeAbort /\
     Regs cpu' !!! 14%fin = 0x1006 /\
     SpsrBank cpu' !!! 2%fin = 0x30) /\
  (exists cpu',
     Exception (Ref.ops (fun _ => 0xDF06))
       (SetSwiHle ∅ 5 (Some (fun c => (c, 10)))) ExceptionSwi
       (Ref.cpuAt 0x1000 true CpuModeUser 0) = Some cpu' /\
     Ref.st_mode (Cpsr cpu') = CpuModeSupervisor /\
     Regs cpu' !!! 14%fin = 0x1000 /\
     SpsrBank cpu' !!! 1%fin = 0x30).
Proof.
  split.
  - destruct (Exception_every_kind (Ref.ops (fun _ => 0)) ∅ ExceptionDataAbort
                (Ref.cpuAt 0x1000 true CpuModeUser 0) (Ref.contract _) eq_refl)
      as (cpu' & idx & E & I & M & _ & S & _ & R).
    change (Some 2%fin = Some idx) in I. injection I as <-.
    exists cpu'. split; [exact E|]. split; [exact M|]. split; [exact R | exact S].
  - assert (Hk : hookFor (Ref.ops (fun _ => 0xDF06))
                   (SetSwiHle ∅ 5 (Some (fun c => (c, 10)))) ExceptionSwi
                   (Ref.cpuAt 0x1000 true CpuModeUser 0) = None).
    { unfold hookFor, SetSwiHle. cbn [is_Swi].
      rewrite lookup_insert_ne by (vm_compute; discriminate). apply lookup_empty. }
    destruct (Exception_every_kind (Ref.ops (fun _ => 0xDF06))
                (SetSwiHle ∅ 5 (Some (fun c => (c, 10)))) ExceptionSwi
                (Ref.cpuAt 0x1000 true CpuModeUser 0) (Ref.contract _) Hk)
      as (cpu' & idx & E & I & M & _ & S & _ & R).
    change (Some 1%fin = Some idx) in I. injection I as <-.
    exists cpu'. split; [exact E|]. split; [exact M|]. split; [exact R | exact S].
Defined.

(** X25. [Reset] always succeeds on a core meeting the contract, whatever
    the hook table holds and whatever state the core was in: the core ends
    in supervisor mode with R14 = 0 (the zeroed program counter, in either
    width), and the status value from before the reset is kept in the
    supervisor's saved-status entry, the other entries being untouched. *)
Theorem Reset_enters_supervisor {regCpsr Cp15 : Type} (ops : @CpuOps regCpsr Cp15)
    (swiHle : gmap Z (@Hle regCpsr Cp15)) (cpu : @Cpu regCpsr Cp15) :
  CpuContract ops ->
  exists cpu',
    Reset ops swiHle cpu = Some cpu' /\
    cpsr_GetMode ops (Cpsr cpu') = CpuModeSupervisor /\
    RegSpsr ops cpu' = Some 1%fin /\
    Regs cpu' !!! 14%fin = 0 /\
    SpsrBank cpu' !!! 1%fin = cpsr_Uint32 ops (Cpsr cpu) /\
    (forall i : fin 5, i <> 1%fin -> SpsrBank cpu' !!! i = SpsrBank cpu !!! i).
Proof.
  intros C. unfold Reset.
  destruct (Exception_real_path ops swiHle ExceptionReset
              (set_Clock 0 (set_prevpc 0 (set_pc 0 cpu))) C eq_refl)
    as (cpu' & idx & E & I & M & R & S & O & L).
  change (Some 1%fin = Some idx) in I. injection I as <-.
  exists cpu'. split; [exact E|]. split; [exact M|]. split; [exact R|].
  split; [|split; [exact S | exact O]].
  rewrite L. cbn [set_Clock set_prevpc set_pc pc Cpsr].
  destruct (cpsr_T ops (Cpsr cpu)); reflexivity.
Qed.

(** X25, on the reference core: a core halted in IRQ mode and Thumb width
    at 0x2000, with a hook installed for call number 0, is reset into
    supervisor mode; R14 is 0 and entry 1 holds the old status 0x32. *)
Lemma Reset_enters_supervisor_witness :
  exists cpu',
    Reset (Ref.ops (fun _ => 0)) (SetSwiHle ∅ 0 (Some (fun c => (c, 10))))
      (Ref.cpuAt 0x2000 true CpuModeIrq LineHalt) = Some cpu' /\
    Ref.st_mode (Cpsr cpu') = CpuModeSupervisor /\
    Regs cpu' !!! 14%fin = 0 /\
    SpsrBank cpu' !!! 1%fin = 0x32.
Proof.
  destruct (Reset_enters_supervisor (Ref.ops (fun _ => 0))
              (SetSwiHle ∅ 0 (Some (fun c => (c, 10))))
              (Ref.cpuAt 0x2000 true CpuModeIrq LineHalt) (Ref.contract _))
    as (cpu' & E & M & _ & R & S & _).
  exists cpu'. split; [exact E|]. split; [exact M|]. split; [exact R | exact S].
Defined.

(** X26. The hook table matters to [Exception] only through the entry of
    the call number a SWI reads: an exception other than a SWI behaves as
    with an empty table; installing or removing the hook of a call number
    other than the one read changes nothing; and once the hook of the call
    number read is removed with [SetSwiHle(n, nil)], the exception behaves
    as with an empty table, that is, it takes the real path. *)
Theorem Exception_hooks_local {regCpsr Cp15 : Type} (ops : @CpuOps regCpsr Cp15)
    (swiHle : gmap Z (@Hle regCpsr Cp15)) (exc : ExceptionT) (cpu : @Cpu regCpsr Cp15)
    (n : Z) (hle : option (@Hle regCpsr Cp15)) :
  (exc <> ExceptionSwi -> Exception ops swiHle exc cpu = Exception ops ∅ exc cpu) /\
  (swiNumber ops cpu <> uint8 n ->
   Exception ops (SetSwiHle swiHle n hle) exc cpu = Exception ops swiHle exc cpu) /\
  (swiNumber ops cpu = uint8 n ->
   Exception ops (SetSwiHle swiHle n None) exc cpu = Exception ops ∅ exc cpu).
Proof.
  split; [|split].
  - intros Hne. rewrite Exception_by_hook.
    replace (hookFor ops swiHle exc cpu) with (@None (@Hle regCpsr Cp15));
      [reflexivity|].
    unfold hookFor. destruct exc; try reflexivity. contradiction.
  - intros Hne. rewrite (Exception_by_hook ops (SetSwiHle swiHle n hle)).
    rewrite (Exception_by_hook ops swiHle).
    replace (hookFor ops (SetSwiHle swiHle n hle) exc cpu)
      with (hookFor ops swiHle exc cpu); [reflexivity|].
    unfold hookFor. destruct (is_Swi exc); [|reflexivity].
    unfold SetSwiHle. destruct hle.
    + symmetry. apply lookup_insert_ne. congruence.
    + symmetry. apply lookup_delete_ne. congruence.
  - intros He. rewrite Exception_by_hook.
    replace (hookFor ops (SetSwiHle swiHle n None) exc cpu)
      with (@None (@Hle regCpsr Cp15)); [reflexivity|].
    unfold hookFor. destruct (is_Swi exc); [|reflexivity].
    unfold SetSwiHle. rewrite He. symmetry. apply lookup_delete_eq.
Qed.

(** X27. [RegSpsr] gives each of the five exception modes its own entry of
    the saved-status bank: the entry returned determines the mode (two
    cores that get the same entry are in the same mode), every exception
    mode gets its entry, and the breakpoint trap is hit exactly in the
    modes that are none of the five (user and system among them). *)
Theorem RegSpsr_entry_per_mode {regCpsr Cp15 : Type} (ops : @CpuOps regCpsr Cp15)
    (c1 c2 : @Cpu regCpsr Cp15) (i : fin 5) :
  (RegSpsr ops c1 = Some i <-> cpsr_GetMode ops (Cpsr c1) = modeOfSpsr i) /\
  (RegSpsr ops c1 = Some i -> RegSpsr ops c2 = Some i ->
   cpsr_GetMode ops (Cpsr c1) = cpsr_GetMode ops (Cpsr c2)) /\
  (RegSpsr ops c1 = None <->
   ~ In (cpsr_GetMode ops (Cpsr c1))
        [CpuModeFiq; CpuModeSupervisor; CpuModeAbort; CpuModeIrq; CpuModeUndefined]) /\
  (cpsr_GetMode ops (Cpsr c1) = CpuModeUser \/ cpsr_GetMode ops (Cpsr c1) = CpuModeSystem ->
   RegSpsr ops c1 = None).
Proof.
  rewrite !RegSpsr_spsrOfMode.
  generalize (cpsr_GetMode ops (Cpsr c1)) as m1.
  generalize (cpsr_GetMode ops (Cpsr c2)) as m2. intros m2 m1.
  split; [|split; [|split]].
  - split; [apply spsrOfMode_inv|].
    intros ->. clear.
    repeat (inv_fin i; [reflexivity | intros i]). inv_fin i.
  - intros H1 H2. apply spsrOfMode_inv in H1, H2. congruence.
  - unfold spsrOfMode. cbn [In].
    destruct (Z.eqb_spec m1 CpuModeUser), (Z.eqb_spec m1 CpuModeSystem),
      (Z.eqb_spec m1 CpuModeFiq), (Z.eqb_spec m1 CpuModeSupervisor),
      (Z.eqb_spec m1 CpuModeAbort), (Z.eqb_spec m1 CpuModeIrq),
      (Z.eqb_spec m1 CpuModeUndefined); cbn [orb];
      unfold CpuModeUser, CpuModeSystem, CpuModeFiq, CpuModeSupervisor,
        CpuModeAbort, CpuModeIrq, CpuModeUndefined in *;
      (split; [intros H; try discriminate H; lia | intros H; try reflexivity; exfalso; lia]).
  - intros [-> | ->]; reflexivity.
Qed.

(** X28. The tight-loop exit flag under [SetLine]: asserting [line] raises
    the flag exactly when the line set differs from [line] (else the flag
    keeps its value), so asserting a line that is already asserted still
    raises it as long as some other line is asserted too (the line set
    then only loses Halt, when [line] has IRQ or FIQ), and asserting into an
    empty line set raises it for any non-empty [line]; no call of [SetLine]
    ever clears the flag. *)
Theorem SetLine_tightExit {regCpsr Cp15 : Type} (cpu : @Cpu regCpsr Cp15)
    (line : Z) (val : bool) :
  tightExit (SetLine line true cpu) = tightExit cpu || negb (lines cpu =? line) /\
  (Z.land (lines cpu) line = line -> lines cpu <> line ->
   lines (SetLine line true cpu)
     = Z.ldiff (lines cpu)
         (if negb (Z.land line (Z.lor LineFiq LineIrq) =? 0) then LineHalt else 0) /\
   tightExit (SetLine line true cpu) = true) /\
  (lines cpu = 0 -> line <> 0 -> tightExit (SetLine line true cpu) = true) /\
  (tightExit cpu = true -> tightExit (SetLine line val cpu) = true).
Proof.
  assert (T : tightExit (SetLine line true cpu)
              = tightExit cpu || negb (lines cpu =? line)).
  { unfold SetLine.
    assert (X : (Z.lxor (lines cpu) line =? 0) = (lines cpu =? line)).
    { destruct (Z.eqb_spec (lines cpu) line) as [-> | Hne].
      - rewrite Z.lxor_nilpotent. reflexivity.
      - apply Z.eqb_neq. intros H. apply Z.lxor_eq in H. contradiction. }
    rewrite X.
    destruct (lines cpu =? line), (negb (Z.land line _ =? 0)); cbn;
      rewrite ?orb_true_r, ?orb_false_r; reflexivity. }
  split; [exact T|]. split; [|split].
  - intros Hin Hne. split.
    + rewrite SetLine_true_lines.
      assert (L : Z.lor (lines cpu) line = lines cpu).
      { apply Z.bits_inj'. intros k _. rewrite Z.lor_spec.
        assert (B := f_equal (fun z => Z.testbit z k) Hin). cbn beta in B.
        rewrite Z.land_spec in B.
        destruct (Z.testbit (lines cpu) k), (Z.testbit line k);
          (reflexivity || discriminate B). }
      rewrite L.
      destruct (negb (Z.land line (Z.lor LineFiq LineIrq) =? 0)); [reflexivity|].
      symmetry. apply Z.ldiff_0_r.
    + rewrite T. apply Z.eqb_neq in Hne. rewrite Hne. apply orb_true_r.
  - intros H0 Hne. rewrite T, H0.
    assert (E : (0 =? line) = false) by (apply Z.eqb_neq; congruence).
    rewrite E. apply orb_true_r.
  - intros Ht. destruct val; [rewrite T, Ht; reflexivity | exact Ht].
Qed.

(** X29. Sequences of [SetLine] calls. The order of a halt request and an
    interrupt matters: a halt asserted before IRQ is released by it, a halt
    asserted after IRQ stays, leaving the core halted with the IRQ line
    still asserted. Repeating a call does not change the line set again,
    and asserting then deasserting [line] leaves none of its bits set
    (whatever was asserted in them before is lost). *)
Theorem SetLine_sequences {regCpsr Cp15 : Type} (cpu : @Cpu regCpsr Cp15)
    (line : Z) (val : bool) :
  Z.testbit (lines (SetLine LineIrq true (SetLine LineHalt true cpu))) 2 = false /\
  (Z.testbit (lines (SetLine LineHalt true (SetLine LineIrq true cpu))) 2 = true /\
   Z.testbit (lines (SetLine LineHalt true (SetLine LineIrq true cpu))) 1 = true) /\
  lines (SetLine line val (SetLine line val cpu)) = lines (SetLine line val cpu) /\
  Z.land (lines (SetLine line false (SetLine line true cpu))) line = 0.
Proof.
  split; [|split; [|split]].
  - rewrite !SetLine_true_lines. cbn [negb].
    change (negb (Z.land LineIrq (Z.lor LineFiq LineIrq) =? 0)) with true. cbn iota.
    rewrite Z.ldiff_spec. change (Z.testbit LineHalt 2) with true. apply andb_false_r.
  - rewrite !SetLine_true_lines.
    change (negb (Z.land LineIrq (Z.lor LineFiq LineIrq) =? 0)) with true.
    change (negb (Z.land LineHalt (Z.lor LineFiq LineIrq) =? 0)) with false. cbn iota.
    rewrite !Z.lor_spec, !Z.ldiff_spec, !Z.lor_spec.
    change (Z.testbit LineHalt 2) with true. change (Z.testbit LineHalt 1) with false.
    change (Z.testbit LineIrq 1) with true.
    rewrite !orb_true_r, orb_false_r, andb_true_r. split; reflexivity.
  - destruct val.
    + rewrite !SetLine_true_lines.
      destruct (negb (Z.land line _ =? 0)).
      * apply Z.bits_inj'. intros k _.
        rewrite !Z.ldiff_spec, !Z.lor_spec, !Z.ldiff_spec, !Z.lor_spec.
        destruct (Z.testbit (lines cpu) k), (Z.testbit line k), (Z.testbit LineHalt k);
          reflexivity.
      * apply Z.bits_inj'. intros k _. rewrite !Z.lor_spec.
        destruct (Z.testbit (lines cpu) k), (Z.testbit line k); reflexivity.
    + unfold SetLine. cbn [lines set_lines].
      apply Z.bits_inj'. intros k _. rewrite !Z.ldiff_spec.
      destruct (Z.testbit (lines cpu) k), (Z.testbit line k); reflexivity.
  - unfold SetLine at 1. cbn [lines set_lines]. apply ldiff_land_same.
Qed.

End ArmFacts.
